(** * Vereins-Entfernungen: address builder, geocode cache, batch distance
      client and matrix assembler of [bhv_distance_app.py]

    The program is a Streamlit script around two Google web services.  The
    development embeds its four pieces of logic:

    - [build_full_address] (lines 112-145),
    - [google_geocode] with the session's geocode cache (lines 37-66),
    - [chunk_list] and [distance_matrix_batch] (lines 68-110),
    - the matrix fill and the diagonal overwrite of the button handler
      (lines 237-259).

    Python values are modelled as the code has them: [str] as [string]
    (the bytes of its UTF-8 encoding), [dict] as [gmap], [list] as [list],
    JSON numbers as [pynum], [float] as the kernel's binary64 [float], a
    missing value (NaN) of a text series as [None], and an exception by the
    text of [str(e)].  The outside world (the two web services, the
    clock, the warning box) is a trace of events plus an oracle that answers
    each request. *)

From Stdlib Require Import ZArith Ascii PrimFloat FloatOps SpecFloat.
From stdpp Require Import gmap strings pretty list.

Set Default Proof Using "Type".
Local Open Scope string_scope.

(** ** Python run-time values *)

Module Py.

(** A computation that may raise; the payload of [Raise] is [str(e)]. *)
Inductive result (A : Type) : Type :=
| Ok (a : A)
| Raise (e : string).
Arguments Ok {A} a.
Arguments Raise {A} e.

Definition bind {A B} (m : result A) (k : A -> result B) : result B :=
  match m with
  | Ok a => k a
  | Raise e => Raise e
  end.

(** [sep.join(l)] *)
Fixpoint join (sep : string) (l : list string) : string :=
  match l with
  | [] => ""
  | s :: rest =>
      match rest with
      | [] => s
      | _ :: _ => s +:+ sep +:+ join sep rest
      end
  end.

(** The white space of [str.isspace], which [str.strip()] removes, by the
    bytes of its UTF-8 encoding.  One byte: U+0009-U+000D, U+001C-U+001F
    and U+0020. *)
Definition space1 (c : ascii) : bool :=
  let n := N_of_ascii c in
  ((9 <=? n) && (n <=? 13) || (28 <=? n) && (n <=? 32))%N.

(** Two bytes: U+0085 (C2 85) and U+00A0 (C2 A0). *)
Definition space2 (c1 c2 : ascii) : bool :=
  let n2 := N_of_ascii c2 in
  ((N_of_ascii c1 =? 194) && ((n2 =? 133) || (n2 =? 160)))%N.

(** Three bytes: U+1680 (E1 9A 80), U+2000-U+200A (E2 80 80-8A), U+2028,
    U+2029 and U+202F (E2 80 A8, A9, AF), U+205F (E2 81 9F) and U+3000
    (E3 80 80). *)
Definition space3 (c1 c2 c3 : ascii) : bool :=
  let n1 := N_of_ascii c1 in
  let n2 := N_of_ascii c2 in
  let n3 := N_of_ascii c3 in
  ((n1 =? 225) && (n2 =? 154) && (n3 =? 128)
   || (n1 =? 226) && (n2 =? 128)
      && ((128 <=? n3) && (n3 <=? 138)
          || (n3 =? 168) || (n3 =? 169) || (n3 =? 175))
   || (n1 =? 226) && (n2 =? 129) && (n3 =? 159)
   || (n1 =? 227) && (n2 =? 128) && (n3 =? 128))%N.

(** [s.lstrip()] *)
Fixpoint lstrip (s : string) : string :=
  match s with
  | String c1 r1 =>
      if space1 c1 then lstrip r1 else
      match r1 with
      | String c2 r2 =>
          if space2 c1 c2 then lstrip r2 else
          match r2 with
          | String c3 r3 => if space3 c1 c2 c3 then lstrip r3 else s
          | EmptyString => s
          end
      | EmptyString => s
      end
  | EmptyString => EmptyString
  end.

(** [lstrip] on the reversed bytes: the bytes of a character come last
    byte first. *)
Fixpoint lstrip_rev (s : string) : string :=
  match s with
  | String c1 r1 =>
      if space1 c1 then lstrip_rev r1 else
      match r1 with
      | String c2 r2 =>
          if space2 c2 c1 then lstrip_rev r2 else
          match r2 with
          | String c3 r3 => if space3 c3 c2 c1 then lstrip_rev r3 else s
          | EmptyString => s
          end
      | EmptyString => s
      end
  | EmptyString => EmptyString
  end.

(** [s.rstrip()] *)
Definition rstrip (s : string) : string :=
  String.rev (lstrip_rev (String.rev s)).

(** [s.strip()] *)
Definition strip (s : string) : string := rstrip (lstrip s).

(** Truth value of a [str]: non-empty. *)
Definition truthy (s : string) : bool := negb (String.eqb s "").

(** Truth value of an entry of a text series: a [str] is true when it is
    non-empty; a missing value is the float NaN, which is not zero and so
    true. *)
Definition truthy_value (v : option string) : bool :=
  match v with
  | Some s => truthy s
  | None => true
  end.

(** The items of [sep.join(l)] for a list of entries of a text series:
    [TypeError] at the first item that is not a [str]. *)
Fixpoint join_items (l : list (option string)) (i : nat) : result (list string) :=
  match l with
  | [] => Ok []
  | Some s :: rest => bind (join_items rest (S i)) (fun ss => Ok (s :: ss))
  | None :: _ =>
      Raise ("sequence item " +:+ pretty i
             +:+ ": expected str instance, float found")
  end.

Definition join_values (sep : string) (l : list (option string)) : result string :=
  bind (join_items l 0) (fun ss => Ok (join sep ss)).

(** [l[i]] for [0 <= i]: [IndexError] past the end. *)
Definition list_index {A} (l : list A) (i : nat) : result A :=
  match l !! i with
  | Some x => Ok x
  | None => Raise "list index out of range"
  end.

(** [l[lo:hi]] for [0 <= lo <= hi]: a slice never raises, it is cut at the
    end of the list. *)
Definition slice {A} (l : list A) (lo hi : nat) : list A :=
  take (hi - lo) (drop lo l).

(** [list(range(0, stop, step))] for [0 < step]; [range] raises
    [ValueError] for [step = 0], which the program never passes (the only
    steps are the constants 25). *)
Definition range_step (stop step : nat) : list nat :=
  (fun k => k * step)%nat <$> seq 0 ((stop + step - 1) / step)%nat.

(** A JSON number as [json.loads] returns it. *)
Inductive pynum : Type :=
| PyInt (n : Z)
| PyFloat (f : float).

(** [float(n)] for an [int]: the nearest binary64 value, ties to even;
    [OverflowError] when that is out of range. *)
Definition float_of_int (n : Z) : result float :=
  let f := SF2Prim (binary_normalize prec emax n 0 false) in
  if is_infinity f then Raise "int too large to convert to float" else Ok f.

Definition to_float (x : pynum) : result float :=
  match x with
  | PyInt n => float_of_int n
  | PyFloat f => Ok f
  end.

(** [x / d] for a number [x] and a non-zero [float] constant [d]. *)
Definition truediv (x : pynum) (d : float) : result float :=
  bind (to_float x) (fun f => Ok (f / d)%float).

(** [num / den] rounded to the nearest integer, ties to the even one
    ([0 < den], [0 <= num]). *)
Definition round_half_even_div (num den : Z) : Z :=
  let q := (num / den)%Z in
  let r := (num mod den)%Z in
  match (2 * r ?= den)%Z with
  | Lt => q
  | Gt => (q + 1)%Z
  | Eq => if Z.even q then q else (q + 1)%Z
  end.

(** [round(x, ndigits)] for a [float] and a small [0 <= ndigits] (the
    program uses 1 and 2): the exact value of [x] is rounded to [ndigits]
    decimals, ties to even, and the decimal is converted back to the
    nearest binary64 value; NaN, the infinities and the zeros round to
    themselves, and the sign is kept. *)
Definition round (x : float) (ndigits : nat) : float :=
  match Prim2SF x with
  | S754_finite s m e =>
      let p := (10 ^ Z.of_nat ndigits)%Z in
      let n :=
        if (0 <=? e)%Z
        then (Z.pos m * 2 ^ e * p)%Z
        else round_half_even_div (Z.pos m * p) (2 ^ (- e)) in
      match n with
      | Z.pos n' =>
          SF2Prim (SFdiv prec emax (S754_finite s n' 0)
                     (binary_normalize prec emax p 0 false))
      | _ => SF2Prim (S754_zero s)
      end
  | _ => x
  end.

End Py.

Arguments Py.strip : simpl never.

(** stdpp's monad notation [x ← m; k] for computations that may raise. *)
#[global] Instance result_ret : MRet Py.result := fun _ a => Py.Ok a.
#[global] Instance result_bind : MBind Py.result := fun _ _ k m => Py.bind m k.

(** A loop that appends one item per pass, or a list comprehension, whose
    item may raise. *)
Fixpoint comprehension {A B} (f : A -> Py.result B) (l : list A)
  : Py.result (list B) :=
  match l with
  | [] => mret []
  | x :: rest =>
      y ← f x;
      ys ← comprehension f rest;
      mret (y :: ys)
  end.

(** ** The outside world *)

(** What the program does to its surroundings, in order. *)
Inductive event : Type :=
| EvClientGeocode (key address : string)
    (** [googlemaps.Client(key=key).geocode(address)] *)
| EvHttpGet (url : string) (params : gmap string string) (timeout : Z)
    (** [requests.get(url, params=params, timeout=timeout)] *)
| EvSleep (seconds : float)
    (** [time.sleep(seconds)] *)
| EvWarning (msg : string).
    (** [st.warning(msg)] *)

Definition is_api_call (e : event) : bool :=
  match e with
  | EvClientGeocode _ _ | EvHttpGet _ _ _ => true
  | EvSleep _ | EvWarning _ => false
  end.

(** The calls to the external services among the events of a trace. *)
Definition api_calls (tr : list event) : list event :=
  List.filter is_api_call tr.

(** ** Address builder (lines 112-145) *)

(** A series of texts; [None] is a missing value (NaN). *)
Abbreviation series := (list (option string)).

Section AddressBuilder.
(** A cell of the uploaded table, and how [Series.astype(str)] renders it:
    as a text, or not at all where it leaves a missing value missing (the
    string dtype keeps NaN; an older pandas renders it as the text "nan"). *)
Context {cell : Type} (astype_str : cell -> option string).

(** A [pandas.DataFrame]: [len(df)] rows and its columns by name.  The
    builder guards every read with [i < len(series)], so the columns are
    not required to have exactly [df_len] entries. *)
Record DataFrame : Type := mkDataFrame {
  df_len : nat;
  df_columns : gmap string (list cell)
}.

(** [col_map.get(k)]: [None] both for a missing key and for a stored
    [None]. *)
Definition col_map_get (col_map : gmap string (option string)) (k : string)
  : option string :=
  col_map !! k ≫= id.

(** The guard [name and name in df.columns] with the column it selects. *)
Definition selected_column (df : DataFrame) (name : option string)
  : option (list cell) :=
  match name with
  | Some n => if Py.truthy n then df_columns df !! n else None
  | None => None
  end.

(** [pd.Series([""] * len(df), index=df.index)] *)
Definition empty_series (df : DataFrame) : series :=
  replicate (df_len df) (Some "").

(** [col.astype(str).str.strip()]: [.str.strip()] leaves a missing value
    missing. *)
Definition stripped (col : list cell) : series :=
  (fun c => Py.strip <$> astype_str c) <$> col.

(** [s.fillna("")] *)
Definition fillna_empty (s : series) : series :=
  (fun v => Some (default "" v)) <$> s.

(** [col_or_empty] (lines 113-114) *)
Definition col_or_empty (df : DataFrame) (name : option string) : series :=
  match selected_column df name with
  | Some col => stripped col
  | None => empty_series df
  end.

(** [country_s] (lines 120-123) *)
Definition country_series (df : DataFrame) (col_map : gmap string (option string))
  : series :=
  match selected_column df (col_map_get col_map "country") with
  | Some col => fillna_empty (stripped col)
  | None => empty_series df
  end.

(** [s.iat[i] if i < len(s) else ""] *)
Definition iat_or_empty (s : series) (i : nat) : option string :=
  default (Some "") (s !! i).

(** The body of the row loop from the four values of the row on
    (lines 131-143).  Both joins raise [TypeError] on a missing value. *)
Definition format_address (street zipc city country : option string)
  : Py.result string :=
  let country := if Py.truthy_value country then country else Some "Deutschland" in
  let segs : list (option string) := [] in
  let segs := if Py.truthy_value street then (segs ++ [street])%list else segs in
  let place_parts := List.filter Py.truthy_value [zipc; city] in
  segs ←
    match place_parts with
    | [] => mret segs
    | _ :: _ =>
        place ← Py.join_values " " place_parts;
        mret (segs ++ [Some place])%list
    end;
  let segs := if Py.truthy_value country then (segs ++ [country])%list else segs in
  Py.join_values ", " segs.

(** One pass of the row loop (lines 126-143): the address of row [i]. *)
Definition row_address (street_s zip_s city_s country_s : series) (i : nat)
  : Py.result string :=
  format_address (iat_or_empty street_s i) (iat_or_empty zip_s i)
    (iat_or_empty city_s i) (iat_or_empty country_s i).

(** [build_full_address(df, col_map)], as the list of the returned series;
    an exception in a pass of the loop leaves the function. *)
Definition build_full_address (df : DataFrame)
    (col_map : gmap string (option string)) : Py.result (list string) :=
  let street_s := col_or_empty df (col_map_get col_map "street") in
  let zip_s := col_or_empty df (col_map_get col_map "zip") in
  let city_s := col_or_empty df (col_map_get col_map "city") in
  let country_s := country_series df col_map in
  comprehension (row_address street_s zip_s city_s country_s)
    (seq 0 (df_len df)).

End AddressBuilder.

Arguments DataFrame : clear implicits.
Arguments mkDataFrame {cell} _ _.

(** ** Geocoder and its cache (lines 37-66) *)

(** A coordinate pair [(lat, lng)] as read from the service's answer. *)
Abbreviation coord := (Py.pynum * Py.pynum)%type.

(** What one geocoding call comes back with: an exception out of the client
    or the HTTP layer, or the list of results; reading the location of a
    result raises when the entry lacks one. *)
Inductive geo_response : Type :=
| GeoRaise (e : string)
| GeoResults (results : list (Py.result coord)).

(** The session: [st.session_state["geocode_cache"]], where a stored [None]
    is the "not found" mark, and everything done to the outside so far. *)
Record session : Type := mkSession {
  geocode_cache : gmap string (option coord);
  trace : list event
}.

Definition emit (e : event) (st : session) : session :=
  mkSession (geocode_cache st) (trace st ++ [e]).

Definition cache_store (address : string) (v : option coord) (st : session)
  : session :=
  mkSession (<[address := v]> (geocode_cache st)) (trace st).

Section Geocoder.
(** Whether [import googlemaps] succeeded (lines 10-14). *)
Context (GMAPS_AVAILABLE : bool).
(** The geocoding service: its answer to a call, given how many calls to
    external services were made before it. *)
Context (geocode_api : nat -> event -> geo_response).

Definition geocode_call (address key : string) : event :=
  if GMAPS_AVAILABLE
  then EvClientGeocode key address
  else EvHttpGet "https://maps.googleapis.com/maps/api/geocode/json"
         (<["language" := "de"]> (<["key" := key]> {["address" := address]}))
         20.

Definition geocode_warning (address e : string) : string :=
  "Geocoding-Fehler für '" +:+ address +:+ "': " +:+ e.

(** [google_geocode(address, key)] *)
Definition google_geocode (address key : string) (st : session)
  : option coord * session :=
  if negb (Py.truthy address) then (None, st)
  else
    match geocode_cache st !! address with
    | Some v => (v, st)
    | None =>
        let call := geocode_call address key in
        let resp := geocode_api (length (api_calls (trace st))) call in
        let st := emit call st in
        match resp with
        | GeoResults (Py.Ok loc :: _) =>
            (Some loc, cache_store address (Some loc) st)
        | GeoResults (Py.Raise e :: _) | GeoRaise e =>
            let st := emit (EvWarning (geocode_warning address e)) st in
            (None, cache_store address None st)
        | GeoResults [] =>
            (None, cache_store address None st)
        end
    end.

(** The geocoding loop of the first button (lines 184-185):
    [coords.append(google_geocode(addr, api_key))] for each address. *)
Fixpoint geocode_all (addresses : list string) (key : string) (st : session)
  : list (option coord) * session :=
  match addresses with
  | [] => ([], st)
  | addr :: rest =>
      let '(c, st) := google_geocode addr key st in
      let '(cs, st) := geocode_all rest key st in
      (c :: cs, st)
  end.

End Geocoder.

(** ** Batch distance client (lines 68-110) *)

(** [list(chunk_list(lst, size))]: the slices [lst[i : i + size]] for
    [i] in [range(0, len(lst), size)]. *)
Definition chunk_list {A} (lst : list A) (size : nat) : list (list A) :=
  (fun i => Py.slice lst i (i + size)) <$> Py.range_step (length lst) size.

(** One element of the service's answer: [elem.get("status")], and what
    [elem["distance"]["value"]] and [elem["duration"]["value"]] evaluate to
    (a number, JSON [null], or an exception when a key is missing). *)
Record dm_element : Type := mkElement {
  elem_status : option string;
  elem_distance : Py.result (option Py.pynum);
  elem_duration : Py.result (option Py.pynum)
}.

(** What one distance request comes back with: an exception out of
    [requests.get], [raise_for_status] or [r.json()], or the rows of the
    answer, each row being its [row.get("elements", [])]. *)
Inductive dm_response : Type :=
| DmRaise (e : string)
| DmRows (rows : list (list dm_element)).

(** A value of the result dictionary. *)
Record pair_result : Type := mkPair {
  distance_m : option Py.pynum;
  duration_s : option Py.pynum;
  status : option string
}.

Abbreviation result_map := (gmap (string * string) pair_result).

(** The state of one run of the client: the dictionary [results] and the
    events so far. *)
Record batch_state : Type := mkBatch {
  results : result_map;
  events : list event
}.

Definition max_origins : nat := 25.
Definition max_destinations : nat := 25.
Definition distance_url : string :=
  "https://maps.googleapis.com/maps/api/distancematrix/json".

(** The dictionary [params] of one request (lines 78-86). *)
Definition build_params (key mode units : string) (use_traffic : bool)
    (o_chunk d_chunk : list string) : gmap string string :=
  let params : gmap string string :=
    <["destinations" := Py.join "|" d_chunk]>
      (<["origins" := Py.join "|" o_chunk]>
         (<["units" := units]> (<["mode" := mode]> {["key" := key]}))) in
  if use_traffic && bool_decide (mode = "driving")
  then <["departure_time" := "now"]> params
  else params.

(** The record stored for an element whose status is ["OK"] or not
    (lines 98-103); reading the values of an ["OK"] element may raise. *)
Definition element_record (elem : dm_element) : Py.result pair_result :=
  let status := elem_status elem in
  if bool_decide (status = Some "OK") then
    dist_m ← elem_distance elem;
    dur_s ← elem_duration elem;
    mret (mkPair dist_m dur_s status)
  else mret (mkPair None None status).

(** The body of the inner loop (lines 95-103) for element [j] of row [i]. *)
Definition store_element (o_chunk d_chunk : list string) (i j : nat)
    (elem : dm_element) (res : result_map) : Py.result result_map :=
  origin ← Py.list_index o_chunk i;
  dest ← Py.list_index d_chunk j;
  r ← element_record elem;
  mret (<[(origin, dest) := r]> res).

(** [for j, elem in enumerate(...)] from index [j] on: the dictionary as
    the loop leaves it, with the exception that stopped it, if any. *)
Fixpoint store_row (o_chunk d_chunk : list string) (i j : nat)
    (elems : list dm_element) (res : result_map) : result_map * option string :=
  match elems with
  | [] => (res, None)
  | elem :: rest =>
      match store_element o_chunk d_chunk i j elem res with
      | Py.Ok res' => store_row o_chunk d_chunk i (S j) rest res'
      | Py.Raise e => (res, Some e)
      end
  end.

(** [for i, row in enumerate(rows)] from index [i] on. *)
Fixpoint store_rows (o_chunk d_chunk : list string) (i : nat)
    (rows : list (list dm_element)) (res : result_map) : result_map * option string :=
  match rows with
  | [] => (res, None)
  | row :: rest =>
      match store_row o_chunk d_chunk i 0 row res with
      | (res', None) => store_rows o_chunk d_chunk (S i) rest res'
      | (res', Some e) => (res', Some e)
      end
  end.

(** The record of the [except] branch (line 108). *)
Definition error_record (e : string) : pair_result :=
  mkPair None None (Some ("ERROR: " +:+ e)).

(** The two loops of the [except] branch (lines 106-108). *)
Definition record_failure (o_chunk d_chunk : list string) (e : string)
    (res : result_map) : result_map :=
  foldl (fun res origin =>
           foldl (fun res dest => <[(origin, dest) := error_record e]> res)
             res d_chunk)
    res o_chunk.

Section BatchClient.
(** The distance service: its answer to the request with the given
    parameters, given how many requests were sent before it. *)
Context (distance_api : nat -> gmap string string -> dm_response).
Context (key mode units : string) (use_traffic : bool) (rate_limit_delay : float).

(** The body of the two chunk loops (lines 78-109) for one pair of
    chunks. *)
Definition request_chunk_pair (st : batch_state) (o_chunk d_chunk : list string)
  : batch_state :=
  let params := build_params key mode units use_traffic o_chunk d_chunk in
  let resp := distance_api (length (api_calls (events st))) params in
  let sent := (events st ++ [EvHttpGet distance_url params 60])%list in
  match resp with
  | DmRows rows =>
      match store_rows o_chunk d_chunk 0 rows (results st) with
      | (res, None) =>
          mkBatch res (sent ++ [EvSleep rate_limit_delay])
      | (res, Some e) =>
          mkBatch (record_failure o_chunk d_chunk e res)
            (sent ++ [EvSleep rate_limit_delay])
      end
  | DmRaise e =>
      mkBatch (record_failure o_chunk d_chunk e (results st))
        (sent ++ [EvSleep rate_limit_delay])
  end.

(** The loops over the chunks, from any state on. *)
Definition batch_loop (origins destinations : list string) (st : batch_state)
  : batch_state :=
  foldl (fun st o_chunk =>
           foldl (fun st d_chunk => request_chunk_pair st o_chunk d_chunk)
             st (chunk_list destinations max_destinations))
    st (chunk_list origins max_origins).

(** [distance_matrix_batch(origins, destinations, key, mode, units,
    use_traffic, rate_limit_delay)]: the returned dictionary and the
    events of the run. *)
Definition distance_matrix_batch (origins destinations : list string)
  : batch_state :=
  batch_loop origins destinations (mkBatch ∅ []).

End BatchClient.

(** ** Matrix assembler (lines 237-259) *)

(** The three frames [dist_km], [time_min] (dtype float, a missing value is
    NaN) and [status_tbl] (dtype object, a missing value is [None]). *)
Record matrices : Type := mkMatrices {
  dist_km : list (list float);
  time_min : list (list float);
  status_tbl : list (list (option string))
}.

(** [pd.DataFrame(index=names, columns=names, ...)]: square, all missing. *)
Definition new_frame {A} (n : nat) (missing : A) : list (list A) :=
  replicate n (replicate n missing).

Definition new_matrices (n : nat) : matrices :=
  mkMatrices (new_frame n nan) (new_frame n nan) (new_frame n None).

(** [frame.iat[i, j]] *)
Definition iat {A} (frame : list (list A)) (i j : nat) : option A :=
  frame !! i ≫= (.!! j).

(** [frame.iat[i, j] = v]: [IndexError] outside the frame. *)
Definition iat_set {A} (frame : list (list A)) (i j : nat) (v : A)
  : Py.result (list (list A)) :=
  match frame !! i with
  | Some row =>
      if bool_decide (j < length row)%nat
      then Py.Ok (<[i := <[j := v]> row]> frame)
      else Py.Raise "index is out of bounds for axis 1"
  | None => Py.Raise "index is out of bounds for axis 0"
  end.

(** The default of [res.get((o, d), ...)] (line 243). *)
Definition missing_pair : pair_result := mkPair None None (Some "N/A").

(** Lines 244-248: the value written to [dist_km]. *)
Definition distance_cell (units : string) (r : pair_result) : Py.result float :=
  match distance_m r with
  | Some m =>
      km ← (if bool_decide (units = "metric")
            then Py.truediv m 1000%float
            else Py.truediv m 1609.344%float);
      mret (Py.round km 2)
  | None => mret nan
  end.

(** Lines 249-253: the value written to [time_min]. *)
Definition duration_cell (r : pair_result) : Py.result float :=
  match duration_s r with
  | Some s =>
      minutes ← Py.truediv s 60%float;
      mret (Py.round minutes 1)
  | None => mret nan
  end.

(** The body of the fill loops (lines 243-254) for origin [o] at row [i] and
    destination [d] at column [j]. *)
Definition fill_cell (units : string) (res : result_map) (i : nat) (o : string)
    (j : nat) (d : string) (M : matrices) : Py.result matrices :=
  let r := default missing_pair (res !! (o, d)) in
  dc ← distance_cell units r;
  D ← iat_set (dist_km M) i j dc;
  tc ← duration_cell r;
  T ← iat_set (time_min M) i j tc;
  S ← iat_set (status_tbl M) i j (status r);
  mret (mkMatrices D T S).

(** [for j, d in enumerate(destinations)] from column [j] on. *)
Fixpoint fill_row (units : string) (res : result_map) (i : nat) (o : string)
    (j : nat) (destinations : list string) (M : matrices) : Py.result matrices :=
  match destinations with
  | [] => mret M
  | d :: rest =>
      M' ← fill_cell units res i o j d M;
      fill_row units res i o (S j) rest M'
  end.

(** [for i, o in enumerate(origins)] from row [i] on. *)
Fixpoint fill_rows (units : string) (res : result_map) (i : nat)
    (origins destinations : list string) (M : matrices) : Py.result matrices :=
  match origins with
  | [] => mret M
  | o :: rest =>
      M' ← fill_row units res i o 0 destinations M;
      fill_rows units res (S i) rest destinations M'
  end.

(** The body of the diagonal loop (lines 257-259). *)
Definition set_diagonal (i : nat) (M : matrices) : Py.result matrices :=
  D ← iat_set (dist_km M) i i 0%float;
  T ← iat_set (time_min M) i i 0%float;
  S ← iat_set (status_tbl M) i i (Some "OK");
  mret (mkMatrices D T S).

(** [for i in indices: ...] *)
Fixpoint overwrite_diagonal (indices : list nat) (M : matrices)
  : Py.result matrices :=
  match indices with
  | [] => mret M
  | i :: rest =>
      M' ← set_diagonal i M;
      overwrite_diagonal rest M'
  end.

(** The frames after the main fill (lines 237-254); the handler takes the
    same token list for origins and destinations (lines 223-224). *)
Definition fill_matrices (res : result_map) (names origins : list string)
    (units : string) : Py.result matrices :=
  let destinations := origins in
  fill_rows units res 0 origins destinations (new_matrices (length names)).

(** The frames the handler shows and exports (lines 237-259). *)
Definition assemble_matrices (res : result_map) (names origins : list string)
    (units : string) : Py.result matrices :=
  M ← fill_matrices res names origins units;
  overwrite_diagonal (seq 0 (length names)) M.

(** ** The script around the functions (lines 147-220) *)

(** [to_latlng_string(lat, lng)] (lines 147-148), for a rendering [py_str]
    of the numbers ([str(x)], which the f-string applies). *)
Definition to_latlng_string (py_str : Py.pynum -> string) (lat lng : Py.pynum)
  : string :=
  py_str lat +:+ "," +:+ py_str lng.

(** The column [df["latlng"]] the first button writes (line 189): the
    rendered pair for a coordinate, a missing value for [None]. *)
Definition latlng_column (py_str : Py.pynum -> string)
    (coords : list (option coord)) : list (option string) :=
  (fun c =>
     match c with
     | Some (lat, lng) => Some (to_latlng_string py_str lat lng)
     | None => None
     end) <$> coords.

(** [series.iloc[i]] for [0 <= i]: [IndexError] past the end. *)
Definition iloc {A} (series : list A) (i : nat) : Py.result A :=
  match series !! i with
  | Some x => Py.Ok x
  | None => Py.Raise "single positional indexer is out-of-bounds"
  end.

(** [origin_tokens] (lines 213-216) for a table of [n] rows: [latlng] is the
    column of that name if the table has one, a missing value ([None], NaN)
    being [None]. *)
Definition origin_tokens (n : nat) (latlng : option (list (option string)))
    (addresses : list string) : Py.result (list string) :=
  match latlng with
  | Some col =>
      if existsb (fun v => bool_decide (is_Some v)) col
      then comprehension
             (fun i =>
                v ← iloc col i;
                match v with
                | Some token => mret token
                | None => Py.list_index addresses i
                end)
             (seq 0 n)
      else mret addresses
  | None => mret addresses
  end.

(** The cut to the first [sample_n] rows (lines 218-220); [0] keeps all. *)
Definition take_sample {A} (sample_n : nat) (l : list A) : list A :=
  if (0 <? sample_n)%nat then take sample_n l else l.

(** A row of the cache file: address, latitude, longitude. *)
Abbreviation cache_row := (string * Py.pynum * Py.pynum)%type.

(** The rows of the cache export (line 196): the resolved entries.  (The
    rows come in the order of the dictionary, which the map does not
    keep.) *)
Definition export_rows (cache : gmap string (option coord)) : list cache_row :=
  omap (fun kv =>
          match kv.2 with
          | Some (lat, lng) => Some (kv.1, lat, lng)
          | None => None
          end)
    (map_to_list cache).

(** The body of the import loop (line 204) for a row with numbers in its
    coordinate columns; [float(x)] may raise. *)
Definition import_row (row : cache_row) (cache : gmap string (option coord))
  : Py.result (gmap string (option coord)) :=
  lat ← Py.to_float row.1.2;
  lng ← Py.to_float row.2;
  mret (<[row.1.1 := Some (Py.PyFloat lat, Py.PyFloat lng)]> cache).

(** The import loop (lines 203-204): the cache as the loop leaves it, with
    the exception that stopped it, if any. *)
Fixpoint import_rows (rows : list cache_row) (cache : gmap string (option coord))
  : gmap string (option coord) * option string :=
  match rows with
  | [] => (cache, None)
  | row :: rest =>
      match import_row row cache with
      | Py.Ok cache' => import_rows rest cache'
      | Py.Raise e => (cache, Some e)
      end
  end.

(** ** Vocabulary of the statements *)

Section Rows.
Context {cell : Type} (astype_str : cell -> option string).

(** Row [i] of the table has the text [text] in the field [k] of the
    column mapping: the mapped column is there and its cell at row [i]
    renders, stripped, as [text]. *)
Definition field_is (df : DataFrame cell) (col_map : gmap string (option string))
    (k : string) (i : nat) (text : string) : Prop :=
  ∃ col c t,
    selected_column df (col_map_get col_map k) = Some col ∧
    col !! i = Some c ∧
    astype_str c = Some t ∧
    Py.strip t = text.

(** Field [k] of row [i] is absent (no column is mapped, or the mapped
    column is not in the table) or blank (the cell renders as white space
    only). *)
Definition field_blank (df : DataFrame cell) (col_map : gmap string (option string))
    (k : string) (i : nat) : Prop :=
  match selected_column df (col_map_get col_map k) with
  | None => True
  | Some col =>
      match col !! i with
      | Some c => ∃ t, astype_str c = Some t ∧ Py.strip t = ""
      | None => True
      end
  end.

(** Field [k] of row [i] is a missing value: the mapped column is there and
    its cell at row [i] stays missing when rendered. *)
Definition field_missing (df : DataFrame cell) (col_map : gmap string (option string))
    (k : string) (i : nat) : Prop :=
  ∃ col c,
    selected_column df (col_map_get col_map k) = Some col ∧
    col !! i = Some c ∧
    astype_str c = None.

(** Row [i] has no missing value in its street, zip and city. *)
Definition row_complete (df : DataFrame cell) (col_map : gmap string (option string))
    (i : nat) : Prop :=
  ¬ field_missing df col_map "street" i ∧
  ¬ field_missing df col_map "zip" i ∧
  ¬ field_missing df col_map "city" i.

(** The pass of the row loop for row [i] of the table. *)
Definition address_of_row (df : DataFrame cell) (col_map : gmap string (option string))
    (i : nat) : Py.result string :=
  row_address
    (col_or_empty astype_str df (col_map_get col_map "street"))
    (col_or_empty astype_str df (col_map_get col_map "zip"))
    (col_or_empty astype_str df (col_map_get col_map "city"))
    (country_series astype_str df col_map) i.

End Rows.

(** The pairs of chunks in the order of the two loops of
    [distance_matrix_batch]. *)
Definition chunk_pairs (origins destinations : list string)
  : list (list string * list string) :=
  list_prod (chunk_list origins max_origins)
    (chunk_list destinations max_destinations).

(** The request sent for a pair of chunks. *)
Definition request_of (key mode units : string) (use_traffic : bool)
    (p : list string * list string) : event :=
  EvHttpGet distance_url (build_params key mode units use_traffic p.1 p.2) 60.

(** A recorded number the fill loop can divide: converting it to [float]
    does not raise. *)
Definition convertible (x : option Py.pynum) : bool :=
  match x with
  | Some n => if Py.to_float n is Py.Ok _ then true else false
  | None => true
  end.

Definition convertible_pair (r : pair_result) : bool :=
  convertible (distance_m r) && convertible (duration_s r).

(** The divisor of the distance for a unit system (line 245). *)
Definition unit_divisor (units : string) : float :=
  if bool_decide (units = "metric") then 1000%float else 1609.344%float.

(** The chunk loops of [distance_matrix_batch] as one loop over the pairs of
    chunks. *)
Definition request_pairs (distance_api : nat -> gmap string string -> dm_response)
    (key mode units : string) (use_traffic : bool) (rate_limit_delay : float)
    (pairs : list (list string * list string)) (st : batch_state) : batch_state :=
  foldl (fun st p =>
           request_chunk_pair distance_api key mode units use_traffic
             rate_limit_delay st p.1 p.2)
    st pairs.

(** An element whose record can be read: its status is not ["OK"], or the
    values of its distance and duration are there. *)
Definition readable_element (elem : dm_element) : bool :=
  if element_record elem is Py.Ok _ then true else false.

(** An answer that fits the request: no more rows than origins, no more
    elements in a row than destinations, every element readable.  Storing
    such an answer raises nothing. *)
Definition answer_fits (o_chunk d_chunk : list string)
    (rows : list (list dm_element)) : Prop :=
  (length rows ≤ length o_chunk)%nat ∧
  Forall (fun row =>
            (length row ≤ length d_chunk)%nat ∧
            Forall (fun elem => readable_element elem = true) row)
    rows.

(** No pair of chunks after the [k]-th holds the pair of tokens [(o, d)]:
    the [k]-th request is the last that writes to it. *)
Definition last_request (origins destinations : list string) (k : nat)
    (o d : string) : Prop :=
  ∀ k' oc dc, (k < k')%nat →
    chunk_pairs origins destinations !! k' = Some (oc, dc) →
    ¬ (o ∈ oc ∧ d ∈ dc).

(** No element of the answer after the one in row [a], column [b] stands
    for the pair of tokens [(o, d)]. *)
Definition last_element (o_chunk d_chunk : list string)
    (rows : list (list dm_element)) (a b : nat) (o d : string) : Prop :=
  ∀ a' b' row', rows !! a' = Some row' → (b' < length row')%nat →
    o_chunk !! a' = Some o → d_chunk !! b' = Some d →
    (a' < a)%nat ∨ (a' = a ∧ b' ≤ b)%nat.

(** The three cells of the frames at row [i], column [j]. *)
Definition cell_at (M : matrices) (i j : nat) : option (float * float * option string) :=
  dc ← iat (dist_km M) i j;
  tc ← iat (time_min M) i j;
  sc ← iat (status_tbl M) i j;
  Some (dc, tc, sc).

(** A frame of [n] rows and [n] columns. *)
Definition square {A} (n : nat) (frame : list (list A)) : Prop :=
  length frame = n ∧ Forall (fun row => length row = n) frame.

Definition square_matrices (n : nat) (M : matrices) : Prop :=
  square n (dist_km M) ∧ square n (time_min M) ∧ square n (status_tbl M).

(** The record the fill loop reads for a pair of tokens (line 243). *)
Definition pair_or_missing (res : result_map) (o d : string) : pair_result :=
  default missing_pair (res !! (o, d)).

(** What lines 244-253 make of a recorded pair [r]: a distance that is a
    number is divided by 1000 (metric) or 1609.344 (imperial) and rounded to
    two decimals, a duration that is a number is divided by 60 and rounded
    to one decimal; [dcell] and [tcell] are the cells of [dist_km] and
    [time_min]. *)
Definition converted_cells (units : string) (r : pair_result)
    (dcell tcell : option float) : Prop :=
  (∀ m, distance_m r = Some m →
     ∃ f, Py.to_float m = Py.Ok f ∧
          (units = "metric" → dcell = Some (Py.round (f / 1000) 2)) ∧
          (units = "imperial" → dcell = Some (Py.round (f / 1609.344) 2))) ∧
  (∀ s, duration_s r = Some s →
     ∃ f, Py.to_float s = Py.Ok f ∧ tcell = Some (Py.round (f / 60) 1)).

(** The value the geocoding loop returns for an address [a], in terms of a
    cache: [None] for the empty address, the cache's entry otherwise. *)
Definition answered_by (cache : gmap string (option coord)) (a : string)
    (c : option coord) : Prop :=
  if decide (a = "") then c = None else cache !! a = Some c.

(** ** Sample inputs *)

Module Sample.

(** The no-break space U+00A0 and the ideographic space U+3000, in UTF-8. *)
Definition nbsp : string :=
  String (ascii_of_nat 194) (String (ascii_of_nat 160) EmptyString).

Definition ideographic_space : string :=
  String (ascii_of_nat 227)
    (String (ascii_of_nat 128) (String (ascii_of_nat 128) EmptyString)).

(** A table whose cells are texts or missing ([None]), which rendering
    leaves as they are: one full row with a missing country, one row of
    blanks (spaces, a no-break space and an ideographic space). *)
Definition clubs : DataFrame (option string) :=
  mkDataFrame 2
    (<["Adresse" := [Some " Hauptstr. 1"; Some "  "]]>
       (<["PLZ" := [Some "12345"; Some ""]]>
          (<["Ort" := [Some "Berlin "; Some (" " +:+ nbsp)]]>
             (<["Land" := [None; Some (ideographic_space +:+ " ")]]> ∅)))).

(** The same table with the street of its second row missing. *)
Definition gaps : DataFrame (option string) :=
  mkDataFrame 2
    (<["Adresse" := [Some " Hauptstr. 1"; None]]> (df_columns clubs)).

(** The mapping of the four fields, without and with a country column. *)
Definition without_country : gmap string (option string) :=
  <["street" := Some "Adresse"]>
    (<["zip" := Some "PLZ"]>
       (<["city" := Some "Ort"]> (<["country" := None]> ∅))).

Definition with_country : gmap string (option string) :=
  <["country" := Some "Land"]> without_country.

(** Thirty tokens. *)
Definition thirty : list string := replicate 30 "52.52,13.40".

(** A distance service that fails the first request and answers every
    later one with a single row of a single element. *)
Definition flaky_api (n : nat) (params : gmap string string) : dm_response :=
  match n with
  | O => DmRaise "timeout"
  | S _ =>
      DmRows [[mkElement (Some "OK") (Py.Ok (Some (Py.PyInt 1000)))
                 (Py.Ok (Some (Py.PyInt 90)))]]
  end.

(** Twenty-six distinct tokens, and a single destination. *)
Definition alphabet : list string :=
  (fun n => String (ascii_of_nat (65 + n)) EmptyString) <$> seq 0 26.

Definition hub : list string := ["Berlin"].

(** A result dictionary with one pair of two clubs, and their names. *)
Definition two_results : result_map :=
  <[("a", "b") := mkPair (Some (Py.PyInt 1000)) (Some (Py.PyInt 90)) (Some "OK")]>
    (<[("a", "a") := mkPair (Some (Py.PyInt 7)) None (Some "ZERO_RESULTS")]> ∅).

Definition two_names : list string := ["TSV"; "SC"].
Definition two_tokens : list string := ["a"; "b"].

(** A distance service whose answers lack the distance of their element. *)
Definition broken_api (n : nat) (params : gmap string string) : dm_response :=
  DmRows [[mkElement (Some "OK") (Py.Raise "'distance'") (Py.Ok (Some (Py.PyInt 90)))]].

(** A distance service that finds no route for the one pair it answers. *)
Definition no_route_api (n : nat) (params : gmap string string) : dm_response :=
  DmRows [[mkElement (Some "ZERO_RESULTS") (Py.Raise "'distance'") (Py.Raise "'duration'")]].

(** A result dictionary whose one pair was not found. *)
Definition not_found_results : result_map :=
  <[("a", "b") := mkPair None None (Some "NOT_FOUND")]> ∅.

(** A distance service that answers every request with a 2 x 2 grid:
    1234 m and 600 s between the two places, 5 m and 1 s from a place to
    itself. *)
Definition route (m s : Z) : dm_element :=
  mkElement (Some "OK") (Py.Ok (Some (Py.PyInt m))) (Py.Ok (Some (Py.PyInt s))).

Definition grid_api (n : nat) (params : gmap string string) : dm_response :=
  DmRows [[route 5 1; route 1234 600]; [route 1234 600; route 5 1]].

(** Twenty-six times the same token, and a single destination. *)
Definition repeated : list string := replicate 26 "a".

Definition one : list string := ["b"].

(** A distance service that answers the first request with twenty-five
    rows of a single element and fails every later one. *)
Definition fading_api (n : nat) (params : gmap string string) : dm_response :=
  match n with
  | O => DmRows (replicate 25 [route 1000 90])
  | S _ => DmRaise "timeout"
  end.

(** A cache file with two rows for the same address. *)
Definition cache_file : list cache_row :=
  [("Berlin", Py.PyFloat 52.5, Py.PyInt 13);
   ("Potsdam", Py.PyFloat 52.4, Py.PyFloat 13.1);
   ("Berlin", Py.PyFloat 52.52, Py.PyFloat 13.4)].

(** A geocoding service that is down. *)
Definition down_api (n : nat) (call : event) : geo_response :=
  GeoRaise "connection refused".

End Sample.

(** * Theorems *)

Local Open Scope list_scope.

(** ** Strings and joins *)

Lemma truthy_true (s : string) : Py.truthy s = true ↔ s ≠ "".
Proof.
  unfold Py.truthy. rewrite negb_true_iff.
  destruct (String.eqb_spec s "") as [->|Hne]; split; try done.
Qed.

Lemma truthy_empty : Py.truthy "" = false.
Proof. reflexivity. Qed.

Lemma truthy_String (c : ascii) (s : string) : Py.truthy (String c s) = true.
Proof. reflexivity. Qed.

(** ** Comprehensions *)

Lemma comprehension_cons {A B : Type} (f : A → Py.result B) (x : A) (rest : list A)
    (zs : list B) :
  comprehension f (x :: rest) = Py.Ok zs →
  ∃ y ys, f x = Py.Ok y ∧ comprehension f rest = Py.Ok ys ∧ zs = y :: ys.
Proof.
  simpl. destruct (f x) as [y|e]; simpl; [|done].
  destruct (comprehension f rest) as [ys|e]; simpl; [|done].
  intros [= <-]. by exists y, ys.
Qed.

Lemma comprehension_length {A B : Type} (f : A → Py.result B) (l : list A)
    (ys : list B) :
  comprehension f l = Py.Ok ys → length ys = length l.
Proof.
  revert ys. induction l as [|x rest IH]; intros zs Hzs.
  - by injection Hzs as <-.
  - apply comprehension_cons in Hzs as (y & ys & _ & Hys & ->).
    simpl. by rewrite (IH ys).
Qed.

Lemma comprehension_lookup {A B : Type} (f : A → Py.result B) (l : list A)
    (ys : list B) (i : nat) (x : A) :
  comprehension f l = Py.Ok ys →
  l !! i = Some x →
  ∃ y, f x = Py.Ok y ∧ ys !! i = Some y.
Proof.
  revert ys i. induction l as [|x0 rest IH]; intros zs i Hzs Hx; [done|].
  apply comprehension_cons in Hzs as (y & ys & Hy & Hys & ->).
  destruct i as [|i].
  - injection Hx as <-. by exists y.
  - by apply (IH ys).
Qed.

Lemma comprehension_returns {A B : Type} (f : A → Py.result B) (l : list A) :
  (∃ ys, comprehension f l = Py.Ok ys) ↔ ∀ x, x ∈ l → ∃ y, f x = Py.Ok y.
Proof.
  induction l as [|x rest IH].
  - split; [by intros _ x ?%elem_of_nil|intros _; by exists []].
  - split.
    + intros [zs Hzs] x' Hx'.
      apply comprehension_cons in Hzs as (y & ys & Hy & Hys & ->).
      apply elem_of_cons in Hx' as [->|Hx']; [by exists y|].
      apply IH; [by exists ys|done].
    + intros Hall.
      destruct (Hall x) as [y Hy]; [by left|].
      destruct (proj2 IH) as [ys Hys]; [intros x' Hx'; apply Hall; by right|].
      exists (y :: ys). simpl. rewrite Hy. simpl. rewrite Hys. done.
Qed.

(** ** Address builder *)

Section AddressFacts.
Context {cell : Type} (astype_str : cell -> option string).
Implicit Types (df : DataFrame cell) (col_map : gmap string (option string)).

Lemma iat_empty_series df (i : nat) : iat_or_empty (empty_series df) i = Some "".
Proof.
  unfold iat_or_empty, empty_series.
  destruct (decide (i < df_len df)%nat) as [Hlt|Hge].
  - by rewrite lookup_replicate_2.
  - rewrite lookup_ge_None_2; [done|]. rewrite length_replicate. lia.
Qed.

Lemma field_is_iat df col_map k i text :
  field_is astype_str df col_map k i text →
  iat_or_empty (col_or_empty astype_str df (col_map_get col_map k)) i = Some text.
Proof.
  intros (col & c & t & Hsel & Hc & Ht & Htext).
  unfold iat_or_empty, col_or_empty, stripped. rewrite Hsel.
  rewrite list_lookup_fmap, Hc. simpl. rewrite Ht. simpl. by f_equal.
Qed.

Lemma field_blank_iat df col_map k i :
  field_blank astype_str df col_map k i →
  iat_or_empty (col_or_empty astype_str df (col_map_get col_map k)) i = Some "".
Proof.
  unfold field_blank, col_or_empty.
  destruct (selected_column df (col_map_get col_map k)) as [col|];
    [|intros _; apply iat_empty_series].
  unfold iat_or_empty, stripped. rewrite list_lookup_fmap.
  destruct (col !! i) as [c|]; simpl; [|done].
  intros (t & Ht & Hblank). rewrite Ht. simpl. by rewrite Hblank.
Qed.

Lemma field_missing_iat df col_map k i :
  field_missing astype_str df col_map k i ↔
  iat_or_empty (col_or_empty astype_str df (col_map_get col_map k)) i = None.
Proof.
  unfold field_missing, col_or_empty. split.
  - intros (col & c & -> & Hc & Hnone).
    unfold iat_or_empty, stripped. rewrite list_lookup_fmap, Hc. simpl.
    by rewrite Hnone.
  - destruct (selected_column df (col_map_get col_map k)) as [col|];
      [|by rewrite iat_empty_series].
    unfold iat_or_empty, stripped. rewrite list_lookup_fmap.
    destruct (col !! i) as [c|] eqn:Hc; simpl; [|done].
    destruct (astype_str c) as [t|] eqn:Ht; simpl; [done|].
    intros _. by exists col, c.
Qed.

(** The country of a row is never a missing value: [fillna] has replaced
    it by the empty text. *)
Lemma country_series_text df col_map i :
  ∃ country, iat_or_empty (country_series astype_str df col_map) i = Some country.
Proof.
  unfold country_series.
  destruct (selected_column df (col_map_get col_map "country")) as [col|];
    [|exists ""; apply iat_empty_series].
  unfold iat_or_empty, fillna_empty. rewrite list_lookup_fmap.
  destruct (stripped astype_str col !! i) as [v|]; simpl; eauto.
Qed.

Lemma country_blank_iat df col_map i :
  field_blank astype_str df col_map "country" i ∨
  field_missing astype_str df col_map "country" i →
  iat_or_empty (country_series astype_str df col_map) i = Some "".
Proof.
  unfold country_series, field_blank, field_missing.
  destruct (selected_column df (col_map_get col_map "country")) as [col|];
    [|intros _; apply iat_empty_series].
  unfold iat_or_empty, fillna_empty, stripped. rewrite !list_lookup_fmap.
  intros [Hblank|(col' & c & [= <-] & Hc & Hnone)].
  - destruct (col !! i) as [c|]; simpl; [|done].
    destruct Hblank as (t & Ht & Hblank). rewrite Ht. simpl. by rewrite Hblank.
  - rewrite Hc. simpl. by rewrite Hnone.
Qed.

(** The rule of the row loop for four texts: of the three segments street,
    "zip city" and country (or its default), the non-empty ones are joined
    with [", "]; within the second, the non-empty ones of zip and city are
    joined with a space. *)
Lemma format_address_segments (street zipc city country : string) :
  format_address (Some street) (Some zipc) (Some city) (Some country)
  = Py.Ok
      (Py.join ", "
         (List.filter Py.truthy
            [street;
             Py.join " " (List.filter Py.truthy [zipc; city]);
             if Py.truthy country then country else "Deutschland"])).
Proof.
  destruct street, zipc, city, country; reflexivity.
Qed.

(** A missing street, zip or city makes one of the joins raise. *)
Lemma format_address_missing (street zipc city : option string) (country : string) :
  street = None ∨ zipc = None ∨ city = None →
  ∃ e, format_address street zipc city (Some country) = Py.Raise e.
Proof.
  intros Hnone.
  destruct street as [[|? ?]|], zipc as [[|? ?]|], city as [[|? ?]|],
    country as [|? ?];
    try (eexists; reflexivity);
    exfalso; destruct Hnone as [?|[?|?]]; discriminate.
Qed.

Lemma format_address_returns (street zipc city : option string) (country a : string) :
  format_address street zipc city (Some country) = Py.Ok a →
  ∃ s z c, street = Some s ∧ zipc = Some z ∧ city = Some c.
Proof.
  intros Ha.
  destruct street as [s|], zipc as [z|], city as [c|];
    try (by exists s, z, c);
    exfalso;
    match goal with
    | H : format_address ?x ?y ?z _ = _ |- _ =>
        destruct (format_address_missing x y z country) as [e He];
          [auto|congruence]
    end.
Qed.

Lemma address_of_row_returns df col_map i :
  (∃ a, address_of_row astype_str df col_map i = Py.Ok a) ↔
  row_complete astype_str df col_map i.
Proof.
  unfold address_of_row, row_address, row_complete.
  rewrite !field_missing_iat.
  destruct (country_series_text df col_map i) as [country ->].
  split.
  - intros [a Ha]. apply format_address_returns in Ha as (s & z & c & -> & -> & ->).
    done.
  - intros (Hs & Hz & Hc).
    destruct (iat_or_empty (col_or_empty _ _ (col_map_get col_map "street")) i)
      as [s|]; [|done].
    destruct (iat_or_empty (col_or_empty _ _ (col_map_get col_map "zip")) i)
      as [z|]; [|done].
    destruct (iat_or_empty (col_or_empty _ _ (col_map_get col_map "city")) i)
      as [c|]; [|done].
    rewrite format_address_segments. eauto.
Qed.

Lemma build_full_address_length df col_map (addresses : list string) :
  build_full_address astype_str df col_map = Py.Ok addresses →
  length addresses = df_len df.
Proof.
  intros Hret. apply comprehension_length in Hret. by rewrite length_seq in Hret.
Qed.

Lemma build_full_address_lookup df col_map (addresses : list string) (i : nat) :
  build_full_address astype_str df col_map = Py.Ok addresses →
  (i < df_len df)%nat →
  ∃ a, address_of_row astype_str df col_map i = Py.Ok a ∧ addresses !! i = Some a.
Proof.
  intros Hret Hi.
  apply (comprehension_lookup _ _ _ i i) in Hret; [done|].
  by rewrite lookup_seq_lt.
Qed.

(** The builder returns exactly when no row has a missing street, zip or
    city. *)
Lemma build_full_address_returns df col_map :
  (∃ addresses, build_full_address astype_str df col_map = Py.Ok addresses) ↔
  ∀ i, (i < df_len df)%nat → row_complete astype_str df col_map i.
Proof.
  unfold build_full_address. rewrite comprehension_returns. split.
  - intros Hall i Hi. apply address_of_row_returns. apply Hall.
    apply elem_of_seq. lia.
  - intros Hall i Hi. apply elem_of_seq in Hi.
    apply (proj2 (address_of_row_returns df col_map i)). apply Hall. lia.
Qed.

Lemma build_full_address_row df col_map (i : nat) (a : string) :
  (i < df_len df)%nat →
  address_of_row astype_str df col_map i = Py.Ok a →
  (∀ addresses,
     build_full_address astype_str df col_map = Py.Ok addresses →
     addresses !! i = Some a) ∧
  ((∀ j, (j < df_len df)%nat → row_complete astype_str df col_map j) →
   ∃ addresses,
     build_full_address astype_str df col_map = Py.Ok addresses ∧
     addresses !! i = Some a).
Proof.
  intros Hi Ha.
  assert (∀ addresses,
            build_full_address astype_str df col_map = Py.Ok addresses →
            addresses !! i = Some a) as Hrow.
  { intros addresses Hret.
    destruct (build_full_address_lookup _ _ _ _ Hret Hi) as (a' & Ha' & Hlook).
    congruence. }
  split; [done|].
  intros Hall. apply build_full_address_returns in Hall as [addresses Hret].
  exists addresses. split; [done|by apply Hrow].
Qed.

End AddressFacts.

(** The builder on a table with a missing street: the join of line 143
    raises. *)
Lemma build_full_address_missing_street :
  build_full_address id Sample.gaps Sample.with_country
  = Py.Raise "sequence item 0: expected str instance, float found".
Proof. vm_compute. reflexivity. Qed.



(** C6, as the program has it: a row whose street, zip and city are blank
    or absent and whose country is blank, absent or missing is built into
    "Deutschland", the default country being appended to the otherwise
    empty list of segments: this is what the row's pass of the loop
    computes, what the returned series holds for the row whenever the
    builder returns, and the builder returns when no row of the table has a
    missing street, zip or city. *)
Theorem build_full_address_all_blank {cell : Type} (astype_str : cell -> option string)
    (df : DataFrame cell) (col_map : gmap string (option string)) (i : nat) :
  (i < df_len df)%nat →
  field_blank astype_str df col_map "street" i →
  field_blank astype_str df col_map "zip" i →
  field_blank astype_str df col_map "city" i →
  field_blank astype_str df col_map "country" i ∨
  field_missing astype_str df col_map "country" i →
  address_of_row astype_str df col_map i = Py.Ok "Deutschland"
  ∧ (∀ addresses,
       build_full_address astype_str df col_map = Py.Ok addresses →
       addresses !! i = Some "Deutschland")
  ∧ ((∀ j, (j < df_len df)%nat → row_complete astype_str df col_map j) →
     ∃ addresses,
       build_full_address astype_str df col_map = Py.Ok addresses ∧
       addresses !! i = Some "Deutschland").
Proof.
  intros Hi Hstreet Hzip Hcity Hcountry.
  assert (address_of_row astype_str df col_map i = Py.Ok "Deutschland") as Hrow.
  { unfold address_of_row, row_address.
    rewrite !field_blank_iat by done.
    by rewrite (country_blank_iat _ _ _ _ Hcountry). }
  destruct (build_full_address_row astype_str df col_map i _ Hi Hrow) as [Hin Hret].
  done.
Qed.

Lemma build_full_address_all_blank_witness :
  ∃ addresses,
    build_full_address id Sample.clubs Sample.with_country = Py.Ok addresses ∧
    addresses !! 1%nat = Some "Deutschland".
Proof.
  apply (build_full_address_all_blank id Sample.clubs Sample.with_country 1).
  - simpl. lia.
  - exists "  ". split; reflexivity.
  - exists "". split; reflexivity.
  - exists (" " +:+ Sample.nbsp). split; reflexivity.
  - left. exists (Sample.ideographic_space +:+ " "). split; reflexivity.
  - apply build_full_address_returns. eexists. vm_compute. reflexivity.
Defined.

(** C6, as the specification words it, fails: the second row of the sample
    table has all four fields blank and its address is not the empty
    string. *)
Lemma build_full_address_all_blank_not_empty :
  field_blank id Sample.clubs Sample.with_country "street" 1 ∧
  field_blank id Sample.clubs Sample.with_country "zip" 1 ∧
  field_blank id Sample.clubs Sample.with_country "city" 1 ∧
  field_blank id Sample.clubs Sample.with_country "country" 1 ∧
  build_full_address id Sample.clubs Sample.with_country
  = Py.Ok ["Hauptstr. 1, 12345 Berlin, Deutschland"; "Deutschland"] ∧
  ["Hauptstr. 1, 12345 Berlin, Deutschland"; "Deutschland"] !! 1%nat ≠ Some "".
Proof.
  split; [exists "  "; split; reflexivity|].
  split; [exists ""; split; reflexivity|].
  split; [exists (" " +:+ Sample.nbsp); split; reflexivity|].
  split; [exists (Sample.ideographic_space +:+ " "); split; reflexivity|].
  split; [vm_compute; reflexivity|discriminate].
Qed.

(** ** Geocoder *)

Section GeocoderFacts.
Context (GMAPS_AVAILABLE : bool) (geocode_api : nat -> event -> geo_response).

Local Abbreviation geocode := (google_geocode GMAPS_AVAILABLE geocode_api).
Local Abbreviation geocode_list := (geocode_all GMAPS_AVAILABLE geocode_api).

(** A cache hit answers from the cache and touches nothing. *)
Lemma google_geocode_hit (address key : string) (st : session) (v : option coord) :
  address ≠ "" →
  geocode_cache st !! address = Some v →
  geocode address key st = (v, st).
Proof.
  intros Hne Hhit. unfold google_geocode.
  apply truthy_true in Hne. rewrite Hne. simpl. by rewrite Hhit.
Qed.

Lemma google_geocode_empty (key : string) (st : session) :
  geocode "" key st = (None, st).
Proof. reflexivity. Qed.

(** A call with a non-empty address leaves its answer in the cache. *)
Lemma google_geocode_stores (address key : string) (st : session) :
  address ≠ "" →
  geocode_cache (geocode address key st).2 !! address
  = Some (geocode address key st).1.
Proof.
  intros Hne. unfold google_geocode.
  apply truthy_true in Hne. rewrite Hne. simpl.
  destruct (geocode_cache st !! address) as [v|] eqn:Hc; [done|].
  destruct (geocode_api _ _) as [e|[|[loc|e] rs]]; simpl;
    by rewrite lookup_insert_eq.
Qed.

(** No call changes or removes an entry of the cache. *)
Lemma google_geocode_keeps (address key : string) (st : session)
    (a : string) (v : option coord) :
  geocode_cache st !! a = Some v →
  geocode_cache (geocode address key st).2 !! a = Some v.
Proof.
  intros Ha. unfold google_geocode.
  destruct (Py.truthy address); simpl; [|done].
  destruct (geocode_cache st !! address) as [w|] eqn:Hc; [done|].
  assert (address ≠ a) by congruence.
  destruct (geocode_api _ _) as [e|[|[loc|e] rs]]; simpl;
    by rewrite lookup_insert_ne.
Qed.

Lemma geocode_all_keeps (addresses : list string) (key : string) (st : session)
    (a : string) (v : option coord) :
  geocode_cache st !! a = Some v →
  geocode_cache (geocode_list addresses key st).2 !! a = Some v.
Proof.
  revert st. induction addresses as [|addr rest IH]; intros st Ha; [done|].
  simpl.
  pose proof (google_geocode_keeps addr key st a v Ha) as Hk.
  destruct (geocode addr key st) as [c st1]. simpl in Hk.
  specialize (IH st1 Hk).
  by destruct (geocode_list rest key st1) as [cs st2].
Qed.

(** A failed lookup of a non-empty address that is not cached stores the
    "not found" mark. *)
Lemma google_geocode_failure_marks (address key : string) (st : session) (e : string) :
  address ≠ "" →
  geocode_cache st !! address = None →
  geocode_api (length (api_calls (trace st)))
    (geocode_call GMAPS_AVAILABLE address key) = GeoRaise e →
  (geocode address key st).1 = None ∧
  geocode_cache (geocode address key st).2 !! address = Some None.
Proof.
  intros Hne Hmiss Hresp. unfold google_geocode.
  apply truthy_true in Hne. rewrite Hne. simpl.
  rewrite Hmiss, Hresp. simpl. by rewrite lookup_insert_eq.
Qed.

End GeocoderFacts.

(** C3: after a call of the geocoder with an address, a later call with the
    same address (whatever other addresses were geocoded in between, the
    cache not being cleared) returns what the first call returned, which for
    a non-empty address is the value the first call left in the cache
    (coordinates or the "not found" mark), and leaves the session as it
    was: no external call, no warning, no change of the cache. *)
Theorem google_geocode_twice (GMAPS_AVAILABLE : bool)
    (geocode_api : nat -> event -> geo_response)
    (address key key2 key3 : string) (between : list string) (st : session) :
  let '(r1, st1) := google_geocode GMAPS_AVAILABLE geocode_api address key st in
  let '(_, st2) := geocode_all GMAPS_AVAILABLE geocode_api between key2 st1 in
  let '(r2, st3) := google_geocode GMAPS_AVAILABLE geocode_api address key3 st2 in
  r2 = r1 ∧
  st3 = st2 ∧
  api_calls (trace st3) = api_calls (trace st2) ∧
  (address ≠ "" →
   geocode_cache st1 !! address = Some r1 ∧ geocode_cache st2 !! address = Some r1).
Proof.
  destruct (decide (address = "")) as [->|Hne].
  - rewrite google_geocode_empty.
    destruct (geocode_all _ _ between key2 st) as [cs st2].
    rewrite google_geocode_empty. by repeat split.
  - pose proof (google_geocode_stores GMAPS_AVAILABLE geocode_api address key st Hne)
      as Hstored.
    destruct (google_geocode _ _ address key st) as [r1 st1]. simpl in Hstored.
    pose proof (geocode_all_keeps GMAPS_AVAILABLE geocode_api between key2 st1
                  address r1 Hstored) as Hkept.
    destruct (geocode_all _ _ between key2 st1) as [cs st2]. simpl in Hkept.
    rewrite (google_geocode_hit _ _ address key3 st2 r1 Hne Hkept).
    by repeat split.
Qed.

(** C10: the geocoder called with the empty address returns [None] and
    leaves the session as it was, so it sends nothing and stores nothing,
    not even the "not found" mark; a failing lookup of a non-empty address
    that is not cached does store that mark. *)
Theorem google_geocode_empty_address (GMAPS_AVAILABLE : bool)
    (geocode_api : nat -> event -> geo_response) (key : string) (st : session) :
  google_geocode GMAPS_AVAILABLE geocode_api "" key st = (None, st)
  ∧ geocode_cache (google_geocode GMAPS_AVAILABLE geocode_api "" key st).2 !! ""
    = geocode_cache st !! ""
  ∧ api_calls (trace (google_geocode GMAPS_AVAILABLE geocode_api "" key st).2)
    = api_calls (trace st)
  ∧ ∀ (address e : string),
      address ≠ "" →
      geocode_cache st !! address = None →
      geocode_api (length (api_calls (trace st)))
        (geocode_call GMAPS_AVAILABLE address key) = GeoRaise e →
      (google_geocode GMAPS_AVAILABLE geocode_api address key st).1 = None ∧
      geocode_cache (google_geocode GMAPS_AVAILABLE geocode_api address key st).2
        !! address = Some None.
Proof.
  repeat split; try done.
  all: by eapply google_geocode_failure_marks.
Qed.

(** ** Chunks *)

Section ChunkFacts.
Context {A : Type}.
Implicit Types (l : list A) (size : nat).

Lemma chunk_list_length l size :
  length (chunk_list l size) = ((length l + size - 1) / size)%nat.
Proof. unfold chunk_list, Py.range_step. by rewrite !length_fmap, length_seq. Qed.

Lemma chunk_count_step (n size : nat) :
  (0 < size)%nat → (0 < n)%nat →
  ((n + size - 1) / size)%nat = S ((n - size + size - 1) / size)%nat.
Proof.
  intros Hsize Hn.
  replace (n + size - 1)%nat with ((n - 1) + 1 * size)%nat by lia.
  rewrite Nat.div_add by lia.
  destruct (decide (size ≤ n)%nat) as [Hle|Hgt].
  - replace (n - size + size - 1)%nat with (n - 1)%nat by lia. lia.
  - replace (n - size + size - 1)%nat with (size - 1)%nat by lia.
    rewrite !Nat.div_small by lia. lia.
Qed.

Lemma chunk_list_nil size : (0 < size)%nat → chunk_list (@nil A) size = [].
Proof.
  intros Hsize. unfold chunk_list, Py.range_step. simpl.
  replace (size - 0)%nat with size by lia.
  by rewrite Nat.div_small by lia.
Qed.

(** The generator, one chunk at a time. *)
Lemma chunk_list_cons l size :
  (0 < size)%nat → l ≠ [] →
  chunk_list l size = take size l :: chunk_list (drop size l) size.
Proof.
  intros Hsize Hl.
  assert (0 < length l)%nat as Hn by (destruct l; [done|simpl; lia]).
  unfold chunk_list, Py.range_step.
  rewrite (chunk_count_step (length l) size Hsize Hn), length_drop.
  rewrite <- !list_fmap_compose.
  cbn [seq fmap list_fmap]. f_equal.
  - unfold compose, Py.slice. simpl.
    by replace (size - 0)%nat with size by lia.
  - rewrite <- fmap_S_seq, <- list_fmap_compose.
    apply list_fmap_ext. intros _ k _. unfold compose, Py.slice.
    rewrite drop_drop.
    replace (S k * size)%nat with (size + k * size)%nat by lia.
    f_equal. lia.
Qed.

(** Induction along the generator: a list is either exhausted or yields
    a chunk and goes on with what [size] elements further on remains. *)
Lemma chunk_list_ind (size : nat) (P : list A → Prop) :
  (0 < size)%nat →
  P [] →
  (∀ l, l ≠ [] → P (drop size l) → P l) →
  ∀ l, P l.
Proof.
  intros Hsize Hnil Hstep l.
  remember (length l) as n eqn:Hn. revert l Hn.
  induction n as [n IH] using lt_wf_ind. intros l Hn.
  destruct l as [|x l']; [done|].
  apply Hstep; [done|].
  eapply IH; [|done]. rewrite length_drop. simpl in *. lia.
Qed.

(** The chunks, put end to end, are the list. *)
Lemma chunk_list_concat l size :
  (0 < size)%nat → concat (chunk_list l size) = l.
Proof.
  intros Hsize. pattern l. apply (chunk_list_ind size); [done| |]; clear l.
  - by rewrite chunk_list_nil.
  - intros l Hl IH. rewrite chunk_list_cons by done. simpl.
    by rewrite IH, take_drop.
Qed.

(** No chunk is empty, none is longer than [size]. *)
Lemma chunk_list_bounds l size :
  (0 < size)%nat →
  Forall (fun c => 0 < length c ≤ size)%nat (chunk_list l size).
Proof.
  intros Hsize. pattern l. apply (chunk_list_ind size); [done| |]; clear l.
  - by rewrite chunk_list_nil.
  - intros l Hl IH. rewrite chunk_list_cons by done. constructor; [|done].
    rewrite length_take. destruct l; [done|]. simpl. lia.
Qed.

Lemma elem_of_concat_2 (L : list (list A)) (c : list A) (x : A) :
  c ∈ L → x ∈ c → x ∈ concat L.
Proof.
  induction L as [|c0 L IH]; intros Hc Hx; [by apply elem_of_nil in Hc|].
  simpl. apply elem_of_app.
  apply elem_of_cons in Hc as [->|Hc]; auto.
Qed.

(** In a list of lists whose concatenation has no duplicates, an element
    occurs in one list only. *)
Lemma concat_index_unique (L : list (list A)) (a a' : nat) (c c' : list A) (x : A) :
  NoDup (concat L) →
  L !! a = Some c → L !! a' = Some c' →
  x ∈ c → x ∈ c' →
  a = a'.
Proof.
  revert a a'. induction L as [|c0 L IH]; intros a a' Hnd Ha Ha' Hx Hx'; [done|].
  simpl in Hnd. apply NoDup_app in Hnd as (Hc0 & Hdisj & HL).
  destruct a as [|a], a' as [|a']; simplify_eq/=; try done.
  - exfalso. apply (Hdisj x Hx).
    apply (elem_of_concat_2 L c'); [by eapply list_elem_of_lookup_2|done].
  - exfalso. apply (Hdisj x Hx').
    apply (elem_of_concat_2 L c); [by eapply list_elem_of_lookup_2|done].
  - f_equal. by eapply IH.
Qed.

Lemma concat_NoDup_member (L : list (list A)) (c : list A) :
  NoDup (concat L) → c ∈ L → NoDup c.
Proof.
  induction L as [|c0 L IH]; intros Hnd Hc; [by apply elem_of_nil in Hc|].
  simpl in Hnd. apply NoDup_app in Hnd as (Hc0 & _ & HL).
  apply elem_of_cons in Hc as [->|Hc]; auto.
Qed.

(** With distinct elements, the chunks are pairwise disjoint and free of
    duplicates. *)
Lemma chunk_list_index_unique l size (a a' : nat) (c c' : list A) (x : A) :
  (0 < size)%nat → NoDup l →
  chunk_list l size !! a = Some c → chunk_list l size !! a' = Some c' →
  x ∈ c → x ∈ c' →
  a = a'.
Proof.
  intros Hsize Hnd. apply concat_index_unique. by rewrite chunk_list_concat.
Qed.

Lemma chunk_list_NoDup l size (c : list A) :
  (0 < size)%nat → NoDup l → c ∈ chunk_list l size → NoDup c.
Proof.
  intros Hsize Hnd. apply concat_NoDup_member. by rewrite chunk_list_concat.
Qed.

End ChunkFacts.

(** ** Batch distance client: requests *)

Lemma api_calls_app (tr1 tr2 : list event) :
  api_calls (tr1 ++ tr2) = api_calls tr1 ++ api_calls tr2.
Proof. apply List.filter_app. Qed.

Lemma foldl_pairs {S A B : Type} (f : S → A → B → S) (os : list A) (ds : list B) (s : S) :
  foldl (fun s o => foldl (fun s d => f s o d) s ds) s os
  = foldl (fun s p => f s p.1 p.2) s (list_prod os ds).
Proof.
  revert s. induction os as [|o os IH]; intros s; [done|].
  simpl. rewrite foldl_app, <- IH. f_equal.
  clear IH. revert s. induction ds as [|d ds IHd]; intros s; [done|].
  simpl. apply IHd.
Qed.

(** A position in the product is a position in each factor. *)
Lemma list_prod_lookup {A B : Type} (os : list A) (ds : list B) (k : nat) (o : A) (d : B) :
  list_prod os ds !! k = Some (o, d) →
  os !! (k / length ds)%nat = Some o ∧ ds !! (k mod length ds)%nat = Some d.
Proof.
  revert k. induction os as [|o0 os IH]; intros k Hk; [done|].
  simpl in Hk.
  destruct (decide (k < length ds)%nat) as [Hlt|Hge].
  - rewrite lookup_app_l in Hk by (by rewrite length_map).
    change (map (fun y => (o0, y)) ds) with ((fun y => (o0, y)) <$> ds) in Hk.
    rewrite list_lookup_fmap in Hk.
    rewrite Nat.div_small, Nat.mod_small by done.
    destruct (ds !! k) as [d'|] eqn:Hd; simplify_eq/=. done.
  - rewrite lookup_app_r in Hk by (rewrite length_map; lia).
    rewrite length_map in Hk.
    apply IH in Hk as [Ho Hd].
    assert (0 < length ds)%nat as Hpos.
    { destruct ds; [by rewrite lookup_nil in Hd|simpl; lia]. }
    remember (k - length ds)%nat as k0 eqn:Hk0.
    assert (k = k0 + 1 * length ds)%nat as -> by lia.
    rewrite Nat.div_add, Nat.Div0.mod_add by lia.
    split; [|done]. by replace (_ + 1)%nat with (S (k0 / length ds)) by lia.
Qed.

Section BatchFacts.
Context (distance_api : nat -> gmap string string -> dm_response).
Context (key mode units : string) (use_traffic : bool) (rate_limit_delay : float).

Local Abbreviation step :=
  (request_chunk_pair distance_api key mode units use_traffic rate_limit_delay).
Local Abbreviation run :=
  (request_pairs distance_api key mode units use_traffic rate_limit_delay).
Local Abbreviation request := (request_of key mode units use_traffic).

Lemma batch_loop_pairs (origins destinations : list string) (st : batch_state) :
  batch_loop distance_api key mode units use_traffic rate_limit_delay
    origins destinations st
  = run (chunk_pairs origins destinations) st.
Proof. unfold batch_loop, request_pairs, chunk_pairs. apply foldl_pairs. Qed.

Lemma request_pairs_app (l1 l2 : list (list string * list string)) (st : batch_state) :
  run (l1 ++ l2) st = run l2 (run l1 st).
Proof. unfold request_pairs. apply foldl_app. Qed.

(** One pair of chunks, one request. *)
Lemma request_chunk_pair_calls (st : batch_state) (o_chunk d_chunk : list string) :
  api_calls (events (step st o_chunk d_chunk))
  = api_calls (events st) ++ [request (o_chunk, d_chunk)].
Proof.
  unfold request_chunk_pair.
  destruct (distance_api _ _) as [e|rows]; [|destruct (store_rows _ _ _ _ _) as [res [e|]]];
    simpl; by rewrite !api_calls_app, app_nil_r.
Qed.

Lemma request_pairs_calls (pairs : list (list string * list string)) (st : batch_state) :
  api_calls (events (run pairs st)) = api_calls (events st) ++ (request <$> pairs).
Proof.
  revert st. induction pairs as [|[oc dc] pairs IH]; intros st.
  - by rewrite app_nil_r.
  - change (run ((oc, dc) :: pairs) st) with (run pairs (step st oc dc)).
    rewrite IH, request_chunk_pair_calls. by rewrite <- app_assoc.
Qed.

Lemma distance_matrix_batch_calls (origins destinations : list string) :
  api_calls (events (distance_matrix_batch distance_api key mode units use_traffic
                       rate_limit_delay origins destinations))
  = request <$> chunk_pairs origins destinations.
Proof.
  unfold distance_matrix_batch. by rewrite batch_loop_pairs, request_pairs_calls.
Qed.

End BatchFacts.



Lemma build_params_departure (key mode units : string) (use_traffic : bool)
    (o_chunk d_chunk : list string) :
  build_params key mode units use_traffic o_chunk d_chunk !! "departure_time"
  = if use_traffic && bool_decide (mode = "driving") then Some "now" else None.
Proof.
  unfold build_params.
  destruct (use_traffic && bool_decide (mode = "driving")); by simplify_map_eq.
Qed.

Lemma build_params_origins (key mode units : string) (use_traffic : bool)
    (o_chunk d_chunk : list string) :
  build_params key mode units use_traffic o_chunk d_chunk !! "origins"
  = Some (Py.join "|" o_chunk).
Proof.
  unfold build_params.
  destruct (use_traffic && bool_decide (mode = "driving")); by simplify_map_eq.
Qed.

Lemma build_params_destinations (key mode units : string) (use_traffic : bool)
    (o_chunk d_chunk : list string) :
  build_params key mode units use_traffic o_chunk d_chunk !! "destinations"
  = Some (Py.join "|" d_chunk).
Proof.
  unfold build_params.
  destruct (use_traffic && bool_decide (mode = "driving")); by simplify_map_eq.
Qed.

(** C9: the parameters of a request hold [departure_time] (and then with
    the value "now") exactly when traffic is asked for and the mode is
    "driving"; origins and destinations are the tokens of the chunks joined
    with "|"; and every request the client sends is built this way from a
    chunk of the origins and a chunk of the destinations. *)
Theorem build_params_departure_time
    (distance_api : nat -> gmap string string -> dm_response)
    (key mode units : string) (use_traffic : bool) (rate_limit_delay : float)
    (origins destinations : list string) :
  (∀ o_chunk d_chunk : list string,
     let params := build_params key mode units use_traffic o_chunk d_chunk in
     (params !! "departure_time" = Some "now" ↔ use_traffic = true ∧ mode = "driving") ∧
     (is_Some (params !! "departure_time") ↔ use_traffic = true ∧ mode = "driving") ∧
     params !! "origins" = Some (Py.join "|" o_chunk) ∧
     params !! "destinations" = Some (Py.join "|" d_chunk))
  ∧ Forall (fun e =>
              ∃ o_chunk d_chunk,
                o_chunk ∈ chunk_list origins 25 ∧
                d_chunk ∈ chunk_list destinations 25 ∧
                e = EvHttpGet distance_url
                      (build_params key mode units use_traffic o_chunk d_chunk) 60)
      (api_calls (events (distance_matrix_batch distance_api key mode units
                            use_traffic rate_limit_delay origins destinations))).
Proof.
  split.
  - intros o_chunk d_chunk params. unfold params.
    rewrite build_params_departure, build_params_origins, build_params_destinations.
    destruct use_traffic; simpl; [case_bool_decide as Hmode|];
      split_and!; try done; split; try done; try (by intros [? ?]).
    all: by intros [? ?]%is_Some_None.
  - rewrite distance_matrix_batch_calls. apply Forall_fmap, Forall_forall.
    intros [oc dc] Hin. exists oc, dc.
    apply list_elem_of_In, in_prod_iff in Hin as [Ho Hd].
    by rewrite <- !list_elem_of_In in *.
Qed.

(** ** Batch distance client: the result dictionary *)

(** The [except] branch writes the error record to every pair of the two
    chunks, and to nothing else. *)
Lemma record_failure_inner (o0 : string) (d_chunk : list string) (v : pair_result)
    (res : result_map) (o d : string) :
  foldl (fun res dest => <[(o0, dest) := v]> res) res d_chunk !! (o, d)
  = if decide (o = o0 ∧ d ∈ d_chunk) then Some v else res !! (o, d).
Proof.
  induction d_chunk as [|d0 dc IH] using rev_ind.
  - cbn [foldl]. rewrite decide_False; [done|]. intros [_ H]. by apply elem_of_nil in H.
  - rewrite foldl_app. cbn [foldl].
    destruct (decide ((o0, d0) = (o, d))) as [Heq|Hne].
    + simplify_eq. rewrite lookup_insert_eq.
      rewrite decide_True; [done|]. split; [done|]. apply elem_of_app. right.
      by apply list_elem_of_singleton.
    + rewrite lookup_insert_ne by done. rewrite IH.
      destruct (decide (o = o0 ∧ d ∈ dc)) as [[-> Hd]|Hn].
      * rewrite decide_True; [done|]. split; [done|]. apply elem_of_app. by left.
      * rewrite decide_False; [done|]. intros [-> Hd].
        apply elem_of_app in Hd as [Hd|Hd%list_elem_of_singleton].
        -- by apply Hn.
        -- subst. by apply Hne.
Qed.

Lemma record_failure_lookup (o_chunk d_chunk : list string) (e : string)
    (res : result_map) (o d : string) :
  record_failure o_chunk d_chunk e res !! (o, d)
  = if decide (o ∈ o_chunk ∧ d ∈ d_chunk) then Some (error_record e)
    else res !! (o, d).
Proof.
  unfold record_failure.
  induction o_chunk as [|o0 oc IH] using rev_ind.
  - cbn [foldl]. rewrite decide_False; [done|]. intros [H _]. by apply elem_of_nil in H.
  - rewrite foldl_app. cbn [foldl]. rewrite record_failure_inner, IH.
    destruct (decide (o = o0 ∧ d ∈ d_chunk)) as [[-> Hd]|Hn].
    + rewrite decide_True; [done|]. split; [|done]. apply elem_of_app. right.
      by apply list_elem_of_singleton.
    + destruct (decide (o ∈ oc ∧ d ∈ d_chunk)) as [[Ho Hd]|Hn'].
      * rewrite decide_True; [done|]. split; [|done]. apply elem_of_app. by left.
      * rewrite decide_False; [done|]. intros [Ho Hd].
        apply elem_of_app in Ho as [Ho|Ho%list_elem_of_singleton].
        -- by apply Hn'.
        -- by apply Hn.
Qed.

Lemma store_element_Ok (o_chunk d_chunk : list string) (i j : nat)
    (elem : dm_element) (res res' : result_map) :
  store_element o_chunk d_chunk i j elem res = Py.Ok res' →
  ∃ o d r,
    o_chunk !! i = Some o ∧ d_chunk !! j = Some d ∧
    element_record elem = Py.Ok r ∧ res' = <[(o, d) := r]> res.
Proof.
  unfold store_element, Py.list_index.
  destruct (o_chunk !! i) as [o|]; [|done].
  destruct (d_chunk !! j) as [d|]; [|done].
  destruct (element_record elem) as [r|e]; [|done].
  intros [= <-]. by exists o, d, r.
Qed.

(** Storing a row writes only to pairs of the row's origin with the
    destinations from column [j] on. *)
Lemma store_row_frame (o_chunk d_chunk : list string) (i j : nat)
    (elems : list dm_element) (res res' : result_map) (err : option string)
    (o d : string) :
  store_row o_chunk d_chunk i j elems res = (res', err) →
  (∀ j', (j ≤ j')%nat → ¬ (o_chunk !! i = Some o ∧ d_chunk !! j' = Some d)) →
  res' !! (o, d) = res !! (o, d).
Proof.
  revert j res. induction elems as [|elem rest IH]; intros j res Hrun Hout.
  - by simplify_eq/=.
  - simpl in Hrun.
    destruct (store_element o_chunk d_chunk i j elem res) as [res1|e] eqn:Hel;
      [|by simplify_eq].
    apply store_element_Ok in Hel as (o1 & d1 & r & Ho1 & Hd1 & _ & ->).
    rewrite (IH _ _ Hrun) by (intros j' Hj'; apply Hout; lia).
    apply lookup_insert_ne. intros [= -> ->]. by apply (Hout j).
Qed.

Lemma store_rows_frame (o_chunk d_chunk : list string) (i : nat)
    (rows : list (list dm_element)) (res res' : result_map) (err : option string)
    (o d : string) :
  store_rows o_chunk d_chunk i rows res = (res', err) →
  (∀ i' j', (i ≤ i')%nat → ¬ (o_chunk !! i' = Some o ∧ d_chunk !! j' = Some d)) →
  res' !! (o, d) = res !! (o, d).
Proof.
  revert i res. induction rows as [|row rest IH]; intros i res Hrun Hout.
  - by simplify_eq/=.
  - simpl in Hrun.
    destruct (store_row o_chunk d_chunk i 0 row res) as [res1 [e|]] eqn:Hrow.
    + simplify_eq. eapply store_row_frame; [done|]. intros j' _. by apply Hout.
    + rewrite (IH _ _ Hrun) by (intros i' j' Hi'; apply Hout; lia).
      eapply store_row_frame; [done|]. intros j' _. by apply Hout.
Qed.

(** What a row stored without an exception leaves in the dictionary. *)
Lemma store_row_stored (o_chunk d_chunk : list string) (i j : nat)
    (elems : list dm_element) (res res' : result_map) (k : nat) (elem : dm_element) :
  NoDup d_chunk →
  store_row o_chunk d_chunk i j elems res = (res', None) →
  elems !! k = Some elem →
  ∃ o d r,
    o_chunk !! i = Some o ∧ d_chunk !! (j + k)%nat = Some d ∧
    element_record elem = Py.Ok r ∧ res' !! (o, d) = Some r.
Proof.
  intros Hnd. revert j res k.
  induction elems as [|elem0 rest IH]; intros j res k Hrun Hk; [done|].
  simpl in Hrun.
  destruct (store_element o_chunk d_chunk i j elem0 res) as [res1|e] eqn:Hel;
    [|by simplify_eq].
  destruct k as [|k]; simplify_eq/=.
  - apply store_element_Ok in Hel as (o & d & r & Ho & Hd & Hr & ->).
    exists o, d, r. rewrite Nat.add_0_r. split_and!; try done.
    rewrite (store_row_frame _ _ _ _ _ _ _ _ o d Hrun).
    + apply lookup_insert_eq.
    + intros j' Hj' [_ Hd']. pose proof (NoDup_lookup _ _ _ _ Hnd Hd Hd'). lia.
  - destruct (IH _ _ _ Hrun Hk) as (o & d & r & ? & Hd & ? & ?).
    exists o, d, r. split_and!; try done. by replace (j + S k)%nat with (S j + k)%nat by lia.
Qed.

Lemma store_rows_stored (o_chunk d_chunk : list string) (i : nat)
    (rows : list (list dm_element)) (res res' : result_map)
    (a b : nat) (row : list dm_element) (elem : dm_element) :
  NoDup o_chunk → NoDup d_chunk →
  store_rows o_chunk d_chunk i rows res = (res', None) →
  rows !! a = Some row → row !! b = Some elem →
  ∃ o d r,
    o_chunk !! (i + a)%nat = Some o ∧ d_chunk !! b = Some d ∧
    element_record elem = Py.Ok r ∧ res' !! (o, d) = Some r.
Proof.
  intros Hno Hnd. revert i res a.
  induction rows as [|row0 rest IH]; intros i res a Hrun Ha Hb; [done|].
  simpl in Hrun.
  destruct (store_row o_chunk d_chunk i 0 row0 res) as [res1 [e|]] eqn:Hrow;
    [by simplify_eq|].
  destruct a as [|a]; simplify_eq/=.
  - destruct (store_row_stored _ _ _ _ _ _ _ _ _ Hnd Hrow Hb) as (o & d & r & Ho & Hd & Hr & Hres).
    exists o, d, r. rewrite Nat.add_0_r. split_and!; try done.
    rewrite (store_rows_frame _ _ _ _ _ _ _ o d Hrun); [done|].
    intros i' j' Hi' [Ho' _]. pose proof (NoDup_lookup _ _ _ _ Hno Ho Ho'). lia.
  - destruct (IH _ _ _ Hrun Ha Hb) as (o & d & r & Ho & ? & ? & ?).
    exists o, d, r. split_and!; try done. by replace (i + S a)%nat with (S i + a)%nat by lia.
Qed.

(** Storing an answer leaves alone every pair that no element of the
    answer stands for. *)
Lemma store_row_untouched (o_chunk d_chunk : list string) (i j : nat)
    (elems : list dm_element) (res res' : result_map) (err : option string)
    (o d : string) :
  store_row o_chunk d_chunk i j elems res = (res', err) →
  (∀ k, (k < length elems)%nat →
     ¬ (o_chunk !! i = Some o ∧ d_chunk !! (j + k)%nat = Some d)) →
  res' !! (o, d) = res !! (o, d).
Proof.
  revert j res. induction elems as [|elem rest IH]; intros j res Hrun Hout.
  - by simplify_eq/=.
  - simpl in Hrun.
    destruct (store_element o_chunk d_chunk i j elem res) as [res1|e] eqn:Hel;
      [|by simplify_eq].
    apply store_element_Ok in Hel as (o1 & d1 & r & Ho1 & Hd1 & _ & ->).
    rewrite (IH _ _ Hrun).
    + apply lookup_insert_ne. intros [= -> ->].
      apply (Hout 0%nat); [simpl; lia|]. by rewrite Nat.add_0_r.
    + intros k Hk. replace (S j + k)%nat with (j + S k)%nat by lia.
      apply Hout. simpl. lia.
Qed.

Lemma store_rows_untouched (o_chunk d_chunk : list string) (i : nat)
    (rows : list (list dm_element)) (res res' : result_map) (err : option string)
    (o d : string) :
  store_rows o_chunk d_chunk i rows res = (res', err) →
  (∀ a row b, rows !! a = Some row → (b < length row)%nat →
     ¬ (o_chunk !! (i + a)%nat = Some o ∧ d_chunk !! b = Some d)) →
  res' !! (o, d) = res !! (o, d).
Proof.
  revert i res. induction rows as [|row rest IH]; intros i res Hrun Hout.
  - by simplify_eq/=.
  - simpl in Hrun.
    assert (∀ k, (k < length row)%nat →
              ¬ (o_chunk !! i = Some o ∧ d_chunk !! (0 + k)%nat = Some d)) as Hrow0.
    { intros k Hk. specialize (Hout 0%nat row k eq_refl Hk).
      by rewrite Nat.add_0_r in Hout. }
    destruct (store_row o_chunk d_chunk i 0 row res) as [res1 [e|]] eqn:Hrow.
    + simplify_eq. by eapply store_row_untouched.
    + rewrite (IH _ _ Hrun).
      * by eapply store_row_untouched.
      * intros a row' b Ha Hb. replace (S i + a)%nat with (i + S a)%nat by lia.
        by apply (Hout (S a) row' b).
Qed.

(** What a row stored without an exception leaves at the pair of an
    element that no later element of the row stands for. *)
Lemma store_row_stored_last (o_chunk d_chunk : list string) (i j : nat)
    (elems : list dm_element) (res res' : result_map) (k : nat) (elem : dm_element)
    (o d : string) :
  store_row o_chunk d_chunk i j elems res = (res', None) →
  elems !! k = Some elem →
  o_chunk !! i = Some o → d_chunk !! (j + k)%nat = Some d →
  (∀ k', (k < k')%nat → (k' < length elems)%nat →
     d_chunk !! (j + k')%nat ≠ Some d) →
  ∃ r, element_record elem = Py.Ok r ∧ res' !! (o, d) = Some r.
Proof.
  revert j res k.
  induction elems as [|elem0 rest IH]; intros j res k Hrun Hk Ho Hd Hlast; [done|].
  simpl in Hrun.
  destruct (store_element o_chunk d_chunk i j elem0 res) as [res1|e] eqn:Hel;
    [|by simplify_eq].
  destruct k as [|k].
  - injection Hk as ->. rewrite Nat.add_0_r in Hd.
    apply store_element_Ok in Hel as (o1 & d1 & r & Ho1 & Hd1 & Hr & ->).
    assert (o1 = o) as -> by congruence. assert (d1 = d) as -> by congruence.
    exists r. split; [done|].
    rewrite (store_row_untouched _ _ _ _ _ _ _ _ o d Hrun).
    + apply lookup_insert_eq.
    + intros k' Hk' [_ Hd']. apply (Hlast (S k')); [lia|simpl; lia|].
      by replace (j + S k')%nat with (S j + k')%nat by lia.
  - apply (IH (S j) res1 k); try done.
    + by replace (S j + k)%nat with (j + S k)%nat by lia.
    + intros k' Hlt Hlen. replace (S j + k')%nat with (j + S k')%nat by lia.
      apply Hlast; simpl; lia.
Qed.

Lemma store_rows_stored_last (o_chunk d_chunk : list string) (i : nat)
    (rows : list (list dm_element)) (res res' : result_map)
    (a b : nat) (row : list dm_element) (elem : dm_element) (o d : string) :
  store_rows o_chunk d_chunk i rows res = (res', None) →
  rows !! a = Some row → row !! b = Some elem →
  o_chunk !! (i + a)%nat = Some o → d_chunk !! b = Some d →
  (∀ a' b' row', rows !! a' = Some row' → (b' < length row')%nat →
     o_chunk !! (i + a')%nat = Some o → d_chunk !! b' = Some d →
     (a' < a)%nat ∨ (a' = a ∧ b' ≤ b)%nat) →
  ∃ r, element_record elem = Py.Ok r ∧ res' !! (o, d) = Some r.
Proof.
  revert i res a.
  induction rows as [|row0 rest IH]; intros i res a Hrun Ha Hb Ho Hd Hlast; [done|].
  simpl in Hrun.
  destruct (store_row o_chunk d_chunk i 0 row0 res) as [res1 [e|]] eqn:Hrow;
    [by simplify_eq|].
  destruct a as [|a].
  - injection Ha as ->. rewrite Nat.add_0_r in Ho.
    destruct (store_row_stored_last _ _ _ _ _ _ _ b elem o d Hrow Hb Ho Hd)
      as (r & Hr & Hres).
    { intros k' Hlt Hlen Hd'.
      destruct (Hlast 0%nat k' row eq_refl Hlen) as [?|[_ ?]]; try lia; try done.
      by rewrite Nat.add_0_r. }
    exists r. split; [done|].
    rewrite (store_rows_untouched _ _ _ _ _ _ _ o d Hrun); [done|].
    intros a' row' b' Ha' Hb' [Ho' Hd'].
    destruct (Hlast (S a') b' row' Ha' Hb') as [?|[? _]]; try lia; try done.
    by replace (i + S a')%nat with (S i + a')%nat by lia.
  - apply (IH (S i) res1 a); try done.
    + by replace (S i + a)%nat with (i + S a)%nat by lia.
    + intros a' b' row' Ha' Hb' Ho' Hd'.
      destruct (Hlast (S a') b' row' Ha' Hb') as [?|[? ?]]; try done.
      * by replace (i + S a')%nat with (S i + a')%nat by lia.
      * left. lia.
      * right. lia.
Qed.

(** An answer that fits is stored without an exception. *)
Lemma store_row_fits (o_chunk d_chunk : list string) (i j : nat)
    (elems : list dm_element) (res : result_map) :
  (i < length o_chunk)%nat →
  (j + length elems ≤ length d_chunk)%nat →
  Forall (fun elem => readable_element elem = true) elems →
  ∃ res', store_row o_chunk d_chunk i j elems res = (res', None).
Proof.
  intros Hi. revert j res.
  induction elems as [|elem rest IH]; intros j res Hj Hread; [by eexists|].
  apply Forall_cons in Hread as [Hel Hrest]. simpl in Hj |- *.
  destruct (lookup_lt_is_Some_2 o_chunk i Hi) as [o Ho].
  destruct (lookup_lt_is_Some_2 d_chunk j ltac:(lia)) as [d Hd].
  unfold store_element, Py.list_index. rewrite Ho, Hd. simpl.
  unfold readable_element in Hel.
  destruct (element_record elem) as [r|e]; [|done]. simpl.
  apply IH; [lia|done].
Qed.

Lemma store_rows_fits (o_chunk d_chunk : list string) (i : nat)
    (rows : list (list dm_element)) (res : result_map) :
  (i + length rows ≤ length o_chunk)%nat →
  Forall (fun row =>
            (length row ≤ length d_chunk)%nat ∧
            Forall (fun elem => readable_element elem = true) row) rows →
  ∃ res', store_rows o_chunk d_chunk i rows res = (res', None).
Proof.
  revert i res. induction rows as [|row rest IH]; intros i res Hi Hfit; [by eexists|].
  apply Forall_cons in Hfit as [[Hlen Hread] Hrest]. simpl in Hi |- *.
  destruct (store_row_fits o_chunk d_chunk i 0 row res) as [res1 ->]; try done; [lia|].
  apply IH; [lia|done].
Qed.

Section BatchResults.
Context (distance_api : nat -> gmap string string -> dm_response).
Context (key mode units : string) (use_traffic : bool) (rate_limit_delay : float).

Local Abbreviation step :=
  (request_chunk_pair distance_api key mode units use_traffic rate_limit_delay).
Local Abbreviation run :=
  (request_pairs distance_api key mode units use_traffic rate_limit_delay).

(** The answer to the request for a pair of chunks sent after [n] others. *)
Local Abbreviation answer n o_chunk d_chunk :=
  (distance_api n (build_params key mode units use_traffic o_chunk d_chunk)).

(** A request writes only to the pairs of its own two chunks. *)
Lemma request_chunk_pair_frame (st : batch_state) (o_chunk d_chunk : list string)
    (o d : string) :
  ¬ (o ∈ o_chunk ∧ d ∈ d_chunk) →
  results (step st o_chunk d_chunk) !! (o, d) = results st !! (o, d).
Proof.
  intros Hout.
  assert (∀ i' j', (0 ≤ i')%nat →
            ¬ (o_chunk !! i' = Some o ∧ d_chunk !! j' = Some d)) as Hidx.
  { intros i' j' _ [Ho Hd]. apply Hout.
    split; by eapply list_elem_of_lookup_2. }
  unfold request_chunk_pair.
  destruct (distance_api _ _) as [e|rows]; simpl.
  - rewrite record_failure_lookup. by rewrite decide_False.
  - destruct (store_rows o_chunk d_chunk 0 rows (results st)) as [res [e|]] eqn:Hrows;
      simpl.
    + rewrite record_failure_lookup, decide_False by done.
      by eapply store_rows_frame.
    + by eapply store_rows_frame.
Qed.

Lemma request_pairs_frame (pairs : list (list string * list string))
    (st : batch_state) (o d : string) :
  Forall (fun p => ¬ (o ∈ p.1 ∧ d ∈ p.2)) pairs →
  results (run pairs st) !! (o, d) = results st !! (o, d).
Proof.
  revert st. induction pairs as [|[oc dc] pairs IH]; intros st Hout; [done|].
  apply Forall_cons in Hout as [Hp Hrest].
  change (run ((oc, dc) :: pairs) st) with (run pairs (step st oc dc)).
  rewrite IH by done. by apply request_chunk_pair_frame.
Qed.

(** A failed request leaves the error record at every pair of its
    chunks. *)
Lemma request_chunk_pair_failed (st : batch_state) (o_chunk d_chunk : list string)
    (e o d : string) :
  answer (length (api_calls (events st))) o_chunk d_chunk = DmRaise e →
  o ∈ o_chunk → d ∈ d_chunk →
  results (step st o_chunk d_chunk) !! (o, d) = Some (error_record e).
Proof.
  intros Hresp Ho Hd. unfold request_chunk_pair. rewrite Hresp. simpl.
  rewrite record_failure_lookup. by rewrite decide_True.
Qed.

(** An answered request leaves, for every element of the answer, the
    element's record at the pair of its row's origin and its column's
    destination. *)
Lemma request_chunk_pair_answered (st : batch_state) (o_chunk d_chunk : list string)
    (rows : list (list dm_element)) (a b : nat) (row : list dm_element)
    (elem : dm_element) :
  NoDup o_chunk → NoDup d_chunk →
  answer (length (api_calls (events st))) o_chunk d_chunk = DmRows rows →
  answer_fits o_chunk d_chunk rows →
  rows !! a = Some row → row !! b = Some elem →
  ∃ o d r,
    o_chunk !! a = Some o ∧ d_chunk !! b = Some d ∧
    element_record elem = Py.Ok r ∧
    results (step st o_chunk d_chunk) !! (o, d) = Some r.
Proof.
  intros Hno Hnd Hresp [Hlen Hfit] Ha Hb.
  unfold request_chunk_pair. rewrite Hresp.
  destruct (store_rows_fits o_chunk d_chunk 0 rows (results st)) as [res Hrows];
    [simpl; lia|done|].
  rewrite Hrows. simpl.
  by apply (store_rows_stored _ _ _ _ _ _ _ _ _ _ Hno Hnd Hrows Ha Hb).
Qed.

(** The same for tokens that may repeat: the element's record is left at
    its pair when no later element of the answer stands for that pair. *)
Lemma request_chunk_pair_answered_last (st : batch_state)
    (o_chunk d_chunk : list string) (rows : list (list dm_element)) (a b : nat)
    (row : list dm_element) (elem : dm_element) (o d : string) :
  answer (length (api_calls (events st))) o_chunk d_chunk = DmRows rows →
  answer_fits o_chunk d_chunk rows →
  rows !! a = Some row → row !! b = Some elem →
  o_chunk !! a = Some o → d_chunk !! b = Some d →
  last_element o_chunk d_chunk rows a b o d →
  ∃ r, element_record elem = Py.Ok r ∧
       results (step st o_chunk d_chunk) !! (o, d) = Some r.
Proof.
  intros Hresp [Hlen Hfit] Ha Hb Ho Hd Hlast.
  unfold request_chunk_pair. rewrite Hresp.
  destruct (store_rows_fits o_chunk d_chunk 0 rows (results st)) as [res Hrows];
    [simpl; lia|done|].
  rewrite Hrows. simpl.
  by apply (store_rows_stored_last _ _ _ _ _ _ a b row elem o d Hrows).
Qed.

End BatchResults.

Lemma element_record_status (elem : dm_element) (r : pair_result) :
  element_record elem = Py.Ok r → status r = elem_status elem.
Proof.
  unfold element_record. case_bool_decide.
  - destruct (elem_distance elem) as [dist|]; [|done].
    destruct (elem_duration elem) as [dur|]; [|done].
    by intros [= <-].
  - by intros [= <-].
Qed.

(** With distinct tokens, what the request for the [k]-th pair of chunks
    leaves at the pairs of its chunks is what the client returns there: no
    later request writes to them. *)
Lemma distance_matrix_batch_at
    (distance_api : nat -> gmap string string -> dm_response)
    (key mode units : string) (use_traffic : bool) (rate_limit_delay : float)
    (origins destinations : list string) (k : nat) (o_chunk d_chunk : list string) :
  NoDup origins → NoDup destinations →
  chunk_pairs origins destinations !! k = Some (o_chunk, d_chunk) →
  NoDup o_chunk ∧ NoDup d_chunk ∧
  ∃ before : batch_state,
    length (api_calls (events before)) = k ∧
    ∀ o d, o ∈ o_chunk → d ∈ d_chunk →
      results (distance_matrix_batch distance_api key mode units use_traffic
                 rate_limit_delay origins destinations) !! (o, d)
      = results (request_chunk_pair distance_api key mode units use_traffic
                   rate_limit_delay before o_chunk d_chunk) !! (o, d).
Proof.
  intros Hno Hnd Hk.
  set (run := request_pairs distance_api key mode units use_traffic rate_limit_delay).
  set (pairs := chunk_pairs origins destinations) in *.
  pose proof Hk as Hpos. apply list_prod_lookup in Hpos as [Hoc Hdc].
  split_and!.
  - eapply (chunk_list_NoDup origins max_origins); [unfold max_origins; lia|done|].
    by eapply list_elem_of_lookup_2.
  - eapply (chunk_list_NoDup destinations max_destinations);
      [unfold max_destinations; lia|done|].
    by eapply list_elem_of_lookup_2.
  - exists (run (take k pairs) (mkBatch ∅ [])). split.
    + unfold run. rewrite request_pairs_calls. simpl.
      rewrite length_fmap, length_take.
      apply lookup_lt_Some in Hk. lia.
    + intros o d Ho Hd. unfold distance_matrix_batch.
      rewrite batch_loop_pairs. fold pairs. fold run.
      assert (run pairs (mkBatch ∅ [])
              = run (drop (S k) pairs)
                  (request_chunk_pair distance_api key mode units use_traffic
                     rate_limit_delay (run (take k pairs) (mkBatch ∅ []))
                     o_chunk d_chunk)) as ->.
      { rewrite <- (take_drop_middle pairs k (o_chunk, d_chunk) Hk) at 1.
        unfold run. by rewrite request_pairs_app. }
      unfold run at 1. apply request_pairs_frame.
      apply Forall_forall. intros [oc' dc'] Hin [Ho' Hd']. simpl in Ho', Hd'.
      apply list_elem_of_lookup in Hin as [i Hi]. rewrite lookup_drop in Hi.
      apply list_prod_lookup in Hi as [Hoc' Hdc'].
      pose proof (chunk_list_index_unique origins max_origins _ _ _ _ o
                    ltac:(unfold max_origins; lia) Hno Hoc Hoc' Ho Ho') as Hdiv.
      pose proof (chunk_list_index_unique destinations max_destinations _ _ _ _ d
                    ltac:(unfold max_destinations; lia) Hnd Hdc Hdc' Hd Hd') as Hmod.
      pose proof (Nat.div_mod_eq k (length (chunk_list destinations max_destinations))).
      pose proof (Nat.div_mod_eq (S k + i) (length (chunk_list destinations max_destinations))).
      rewrite <- Hdiv, <- Hmod in *. lia.
Qed.

(** With distinct tokens no pair of tokens lies in two pairs of chunks. *)
Lemma chunk_pairs_disjoint (origins destinations : list string) (k k' : nat)
    (oc dc oc' dc' : list string) (o d : string) :
  NoDup origins → NoDup destinations →
  chunk_pairs origins destinations !! k = Some (oc, dc) →
  chunk_pairs origins destinations !! k' = Some (oc', dc') →
  o ∈ oc → d ∈ dc → o ∈ oc' → d ∈ dc' →
  k = k'.
Proof.
  intros Hno Hnd Hk Hk' Ho Hd Ho' Hd'.
  apply list_prod_lookup in Hk as [Hoc Hdc], Hk' as [Hoc' Hdc'].
  pose proof (chunk_list_index_unique origins max_origins _ _ _ _ o
                ltac:(unfold max_origins; lia) Hno Hoc Hoc' Ho Ho') as Hdiv.
  pose proof (chunk_list_index_unique destinations max_destinations _ _ _ _ d
                ltac:(unfold max_destinations; lia) Hnd Hdc Hdc' Hd Hd') as Hmod.
  pose proof (Nat.div_mod_eq k (length (chunk_list destinations max_destinations))).
  pose proof (Nat.div_mod_eq k' (length (chunk_list destinations max_destinations))).
  rewrite <- Hdiv, <- Hmod in *. lia.
Qed.

(** What the request for the [k]-th pair of chunks leaves at a pair of
    tokens that no later pair of chunks holds is what the client returns
    there. *)
Lemma distance_matrix_batch_last
    (distance_api : nat -> gmap string string -> dm_response)
    (key mode units : string) (use_traffic : bool) (rate_limit_delay : float)
    (origins destinations : list string) (k : nat) (o_chunk d_chunk : list string) :
  chunk_pairs origins destinations !! k = Some (o_chunk, d_chunk) →
  ∃ before : batch_state,
    length (api_calls (events before)) = k ∧
    ∀ o d, last_request origins destinations k o d →
      results (distance_matrix_batch distance_api key mode units use_traffic
                 rate_limit_delay origins destinations) !! (o, d)
      = results (request_chunk_pair distance_api key mode units use_traffic
                   rate_limit_delay before o_chunk d_chunk) !! (o, d).
Proof.
  intros Hk.
  set (run := request_pairs distance_api key mode units use_traffic rate_limit_delay).
  set (pairs := chunk_pairs origins destinations) in *.
  exists (run (take k pairs) (mkBatch ∅ [])). split.
  - unfold run. rewrite request_pairs_calls. simpl.
    rewrite length_fmap, length_take.
    apply lookup_lt_Some in Hk. lia.
  - intros o d Hlast. unfold distance_matrix_batch.
    rewrite batch_loop_pairs. fold pairs. fold run.
    assert (run pairs (mkBatch ∅ [])
            = run (drop (S k) pairs)
                (request_chunk_pair distance_api key mode units use_traffic
                   rate_limit_delay (run (take k pairs) (mkBatch ∅ []))
                   o_chunk d_chunk)) as ->.
    { rewrite <- (take_drop_middle pairs k (o_chunk, d_chunk) Hk) at 1.
      unfold run. by rewrite request_pairs_app. }
    unfold run at 1. apply request_pairs_frame.
    apply Forall_forall. intros [oc' dc'] Hin.
    apply list_elem_of_lookup in Hin as [i Hi]. rewrite lookup_drop in Hi.
    apply (Hlast (S k + i)%nat oc' dc'); [lia|done].
Qed.




(** ** Matrix assembler: frames *)

Section Frames.
Context {A : Type}.
Implicit Types (frame : list (list A)).

(** A successful write is read back, and nothing else moves. *)
Lemma iat_set_inv frame (i j : nat) (v : A) frame' :
  iat_set frame i j v = Py.Ok frame' →
  iat frame' i j = Some v ∧
  ∀ i' j', ¬ (i' = i ∧ j' = j) → iat frame' i' j' = iat frame i' j'.
Proof.
  unfold iat_set, iat.
  destruct (frame !! i) as [row|] eqn:Hrow; [|done].
  case_bool_decide as Hj; [|done]. intros [= <-].
  pose proof (lookup_lt_Some _ _ _ Hrow) as Hi.
  split.
  - rewrite list_lookup_insert_eq by done. simpl.
    by rewrite list_lookup_insert_eq.
  - intros i' j' Hne. destruct (decide (i' = i)) as [->|Hi'].
    + rewrite list_lookup_insert_eq, Hrow by done. simpl.
      apply list_lookup_insert_ne. naive_solver.
    + by rewrite list_lookup_insert_ne.
Qed.

Lemma new_frame_square (n : nat) (missing : A) : square n (new_frame n missing).
Proof.
  unfold square, new_frame. rewrite length_replicate. split; [done|].
  apply Forall_replicate. by rewrite length_replicate.
Qed.

(** Inside a square frame a write succeeds and keeps the frame square. *)
Lemma iat_set_square (n : nat) frame (i j : nat) (v : A) :
  square n frame → (i < n)%nat → (j < n)%nat →
  ∃ frame', iat_set frame i j v = Py.Ok frame' ∧ square n frame'.
Proof.
  intros [Hlen Hrows] Hi Hj. unfold iat_set.
  destruct (lookup_lt_is_Some_2 frame i ltac:(lia)) as [row Hrow].
  rewrite Hrow.
  assert (length row = n) as Hrowlen.
  { rewrite Forall_forall in Hrows. apply Hrows. by eapply list_elem_of_lookup_2. }
  rewrite bool_decide_eq_true_2 by lia.
  eexists. split; [done|]. split.
  - by rewrite length_insert.
  - apply Forall_insert; [done|]. by rewrite length_insert.
Qed.

End Frames.

Lemma cell_at_Some (M : matrices) (i j : nat) (dc tc : float) (sc : option string) :
  cell_at M i j = Some (dc, tc, sc) ↔
  iat (dist_km M) i j = Some dc ∧ iat (time_min M) i j = Some tc ∧
  iat (status_tbl M) i j = Some sc.
Proof.
  unfold cell_at.
  destruct (iat (dist_km M) i j), (iat (time_min M) i j), (iat (status_tbl M) i j);
    simpl; naive_solver.
Qed.

Lemma new_matrices_square (n : nat) : square_matrices n (new_matrices n).
Proof. repeat split; apply new_frame_square. Qed.

(** ** Matrix assembler: the fill loops *)

Section FillFacts.
Context (units : string) (res : result_map).

(** One turn of the loops writes the three cells of its position and
    nothing else. *)
Lemma fill_cell_inv (i : nat) (o : string) (j : nat) (d : string) (M M' : matrices) :
  fill_cell units res i o j d M = Py.Ok M' →
  (∃ dc tc,
     distance_cell units (pair_or_missing res o d) = Py.Ok dc ∧
     duration_cell (pair_or_missing res o d) = Py.Ok tc ∧
     cell_at M' i j = Some (dc, tc, status (pair_or_missing res o d))) ∧
  ∀ i' j', ¬ (i' = i ∧ j' = j) → cell_at M' i' j' = cell_at M i' j'.
Proof.
  unfold fill_cell. fold (pair_or_missing res o d).
  destruct (distance_cell units (pair_or_missing res o d)) as [dc|e]; [|done]. simpl.
  destruct (iat_set (dist_km M) i j dc) as [D|e] eqn:HD; [|done]. simpl.
  destruct (duration_cell (pair_or_missing res o d)) as [tc|e]; [|done]. simpl.
  destruct (iat_set (time_min M) i j tc) as [T|e] eqn:HT; [|done]. simpl.
  destruct (iat_set (status_tbl M) i j _) as [S|e] eqn:HS; [|done]. simpl.
  intros [= <-].
  apply iat_set_inv in HD as [HD HD'], HT as [HT HT'], HS as [HS HS'].
  split.
  - exists dc, tc. split_and!; try done. by apply cell_at_Some.
  - intros i' j' Hne. unfold cell_at. simpl. by rewrite HD', HT', HS'.
Qed.

Lemma fill_row_inv (i : nat) (o : string) (j : nat) (destinations : list string)
    (M M' : matrices) :
  fill_row units res i o j destinations M = Py.Ok M' →
  (∀ k d, destinations !! k = Some d →
     ∃ dc tc,
       distance_cell units (pair_or_missing res o d) = Py.Ok dc ∧
       duration_cell (pair_or_missing res o d) = Py.Ok tc ∧
       cell_at M' i (j + k) = Some (dc, tc, status (pair_or_missing res o d))) ∧
  ∀ i' j', (i' ≠ i ∨ j' < j)%nat → cell_at M' i' j' = cell_at M i' j'.
Proof.
  revert j M. induction destinations as [|d0 rest IH]; intros j M Hrun.
  - injection Hrun as <-. by split.
  - simpl in Hrun.
    destruct (fill_cell units res i o j d0 M) as [M1|e] eqn:Hcell; [|done].
    simpl in Hrun. apply fill_cell_inv in Hcell as [(dc & tc & Hd & Ht & Hc) Hframe].
    apply IH in Hrun as [Hcells Hframe']. split.
    + intros [|k] d Hk; simplify_eq/=.
      * exists dc, tc. split_and!; try done.
        rewrite Nat.add_0_r, Hframe' by lia. done.
      * destruct (Hcells k d Hk) as (dc' & tc' & ? & ? & ?).
        exists dc', tc'. split_and!; try done.
        by replace (j + S k)%nat with (S j + k)%nat by lia.
    + intros i' j' Hout. rewrite Hframe' by lia. apply Hframe. lia.
Qed.

Lemma fill_rows_inv (i : nat) (origins destinations : list string) (M M' : matrices) :
  fill_rows units res i origins destinations M = Py.Ok M' →
  (∀ a o b d, origins !! a = Some o → destinations !! b = Some d →
     ∃ dc tc,
       distance_cell units (pair_or_missing res o d) = Py.Ok dc ∧
       duration_cell (pair_or_missing res o d) = Py.Ok tc ∧
       cell_at M' (i + a) b = Some (dc, tc, status (pair_or_missing res o d))) ∧
  ∀ i' j', (i' < i)%nat → cell_at M' i' j' = cell_at M i' j'.
Proof.
  revert i M. induction origins as [|o0 rest IH]; intros i M Hrun.
  - injection Hrun as <-. by split.
  - simpl in Hrun.
    destruct (fill_row units res i o0 0 destinations M) as [M1|e] eqn:Hrow; [|done].
    simpl in Hrun. apply fill_row_inv in Hrow as [Hrowcells Hframe].
    apply IH in Hrun as [Hcells Hframe']. split.
    + intros [|a] o b d Ha Hb; simplify_eq/=.
      * destruct (Hrowcells b d Hb) as (dc & tc & ? & ? & Hc).
        exists dc, tc. split_and!; try done.
        rewrite Nat.add_0_r, Hframe' by lia. done.
      * destruct (Hcells a o b d Ha Hb) as (dc & tc & ? & ? & ?).
        exists dc, tc. split_and!; try done.
        by replace (i + S a)%nat with (S i + a)%nat by lia.
    + intros i' j' Hout. rewrite Hframe' by lia. apply Hframe. lia.
Qed.

End FillFacts.

(** ** Matrix assembler: the diagonal loop *)

Lemma set_diagonal_inv (i : nat) (M M' : matrices) :
  set_diagonal i M = Py.Ok M' →
  cell_at M' i i = Some (0%float, 0%float, Some "OK") ∧
  ∀ i' j', ¬ (i' = i ∧ j' = i) → cell_at M' i' j' = cell_at M i' j'.
Proof.
  unfold set_diagonal.
  destruct (iat_set (dist_km M) i i _) as [D|e] eqn:HD; [|done]. simpl.
  destruct (iat_set (time_min M) i i _) as [T|e] eqn:HT; [|done]. simpl.
  destruct (iat_set (status_tbl M) i i _) as [S|e] eqn:HS; [|done]. simpl.
  intros [= <-].
  apply iat_set_inv in HD as [HD HD'], HT as [HT HT'], HS as [HS HS'].
  split.
  - by apply cell_at_Some.
  - intros i' j' Hne. unfold cell_at. simpl. by rewrite HD', HT', HS'.
Qed.

Lemma overwrite_diagonal_inv (indices : list nat) (M M' : matrices) :
  overwrite_diagonal indices M = Py.Ok M' →
  (∀ i, i ∈ indices → cell_at M' i i = Some (0%float, 0%float, Some "OK")) ∧
  ∀ i j, ¬ (i = j ∧ i ∈ indices) → cell_at M' i j = cell_at M i j.
Proof.
  revert M. induction indices as [|i0 rest IH]; intros M Hrun.
  - injection Hrun as <-. split; [|done]. intros i Hi. by apply elem_of_nil in Hi.
  - simpl in Hrun.
    destruct (set_diagonal i0 M) as [M1|e] eqn:Hset; [|done]. simpl in Hrun.
    apply set_diagonal_inv in Hset as [Hcell Hframe].
    apply IH in Hrun as [Hcells Hframe']. split.
    + intros i Hi. destruct (decide (i ∈ rest)) as [Hin|Hout]; [by apply Hcells|].
      apply elem_of_cons in Hi as [->|Hi]; [|done].
      rewrite Hframe' by naive_solver. done.
    + intros i j Hout. rewrite Hframe'.
      * apply Hframe. intros [-> ->]. apply Hout. split; [done|]. by left.
      * intros [-> Hin]. apply Hout. split; [done|]. by right.
Qed.

(** ** Matrix assembler: nothing raises on well-formed input *)

Lemma convertible_Ok (x : Py.pynum) (d : float) :
  convertible (Some x) = true → ∃ f, Py.to_float x = Py.Ok f ∧ Py.truediv x d = Py.Ok (f / d)%float.
Proof.
  unfold convertible, Py.truediv.
  destruct (Py.to_float x) as [f|e]; [|done]. intros _. by exists f.
Qed.

Lemma distance_cell_total (units : string) (r : pair_result) :
  convertible (distance_m r) = true → ∃ dc, distance_cell units r = Py.Ok dc.
Proof.
  unfold distance_cell. destruct (distance_m r) as [m|]; [|by eexists].
  intros Hm. case_bool_decide.
  - destruct (convertible_Ok m 1000%float Hm) as (f & _ & ->). by eexists.
  - destruct (convertible_Ok m 1609.344%float Hm) as (f & _ & ->). by eexists.
Qed.

Lemma duration_cell_total (r : pair_result) :
  convertible (duration_s r) = true → ∃ tc, duration_cell r = Py.Ok tc.
Proof.
  unfold duration_cell. destruct (duration_s r) as [s|]; [|by eexists].
  intros Hs. destruct (convertible_Ok s 60%float Hs) as (f & _ & ->). by eexists.
Qed.

Section FillTotal.
Context (units : string) (res : result_map).
Context (Hres : ∀ k r, res !! k = Some r → convertible_pair r = true).

Lemma pair_or_missing_convertible (o d : string) :
  convertible_pair (pair_or_missing res o d) = true.
Proof using Hres.
  unfold pair_or_missing. destruct (res !! (o, d)) as [r|] eqn:Hr; simpl; [|done].
  by eapply Hres.
Qed.

Lemma fill_cell_total (n i j : nat) (o d : string) (M : matrices) :
  square_matrices n M → (i < n)%nat → (j < n)%nat →
  ∃ M', fill_cell units res i o j d M = Py.Ok M' ∧ square_matrices n M'.
Proof using Hres.
  intros (HD & HT & HS) Hi Hj. unfold fill_cell. fold (pair_or_missing res o d).
  pose proof (pair_or_missing_convertible o d) as Hconv.
  apply andb_true_iff in Hconv as [Hdist Hdur].
  destruct (distance_cell_total units _ Hdist) as [dc ->]. simpl.
  destruct (iat_set_square n (dist_km M) i j dc HD Hi Hj) as (D & -> & HD'). simpl.
  destruct (duration_cell_total _ Hdur) as [tc ->]. simpl.
  destruct (iat_set_square n (time_min M) i j tc HT Hi Hj) as (T & -> & HT'). simpl.
  destruct (iat_set_square n (status_tbl M) i j
              (status (pair_or_missing res o d)) HS Hi Hj) as (S & -> & HS'). simpl.
  by eexists.
Qed.

Lemma fill_row_total (n i j : nat) (o : string) (destinations : list string)
    (M : matrices) :
  square_matrices n M → (i < n)%nat → (j + length destinations ≤ n)%nat →
  ∃ M', fill_row units res i o j destinations M = Py.Ok M' ∧ square_matrices n M'.
Proof using Hres.
  revert j M. induction destinations as [|d rest IH]; intros j M HM Hi Hj.
  - by exists M.
  - simpl in Hj |- *.
    destruct (fill_cell_total n i j o d M HM Hi ltac:(lia)) as (M1 & -> & HM1). simpl.
    apply IH; [done|done|lia].
Qed.

Lemma fill_rows_total (n i : nat) (origins destinations : list string) (M : matrices) :
  square_matrices n M → (i + length origins ≤ n)%nat → (length destinations ≤ n)%nat →
  ∃ M', fill_rows units res i origins destinations M = Py.Ok M'
        ∧ square_matrices n M'.
Proof using Hres.
  revert i M. induction origins as [|o rest IH]; intros i M HM Hi Hd.
  - by exists M.
  - simpl in Hi |- *.
    destruct (fill_row_total n i 0 o destinations M HM ltac:(lia) ltac:(lia))
      as (M1 & -> & HM1). simpl.
    apply IH; [done|lia|done].
Qed.

End FillTotal.

Lemma overwrite_diagonal_total (n : nat) (indices : list nat) (M : matrices) :
  square_matrices n M → Forall (fun i => i < n)%nat indices →
  ∃ M', overwrite_diagonal indices M = Py.Ok M' ∧ square_matrices n M'.
Proof.
  revert M. induction indices as [|i rest IH]; intros M HM Hidx.
  - by exists M.
  - apply Forall_cons in Hidx as [Hi Hrest]. destruct HM as (HD & HT & HS).
    simpl. unfold set_diagonal.
    destruct (iat_set_square n (dist_km M) i i 0%float HD Hi Hi) as (D & -> & HD'). simpl.
    destruct (iat_set_square n (time_min M) i i 0%float HT Hi Hi) as (T & -> & HT'). simpl.
    destruct (iat_set_square n (status_tbl M) i i (Some "OK") HS Hi Hi) as (S & -> & HS').
    simpl. apply IH; [done|done].
Qed.

(** With as many tokens as names and every recorded number convertible, the
    fill and the whole assembly run to their end. *)
Lemma fill_matrices_total (res : result_map) (names origins : list string) (units : string) :
  length origins = length names →
  (∀ k r, res !! k = Some r → convertible_pair r = true) →
  ∃ M, fill_matrices res names origins units = Py.Ok M
       ∧ square_matrices (length names) M.
Proof.
  intros Hlen Hres. unfold fill_matrices.
  apply fill_rows_total; [done|apply new_matrices_square|lia|lia].
Qed.

Lemma assemble_matrices_total (res : result_map) (names origins : list string)
    (units : string) :
  length origins = length names →
  (∀ k r, res !! k = Some r → convertible_pair r = true) →
  ∃ M, assemble_matrices res names origins units = Py.Ok M.
Proof.
  intros Hlen Hres. unfold assemble_matrices.
  destruct (fill_matrices_total res names origins units Hlen Hres) as (M1 & -> & HM1).
  simpl.
  destruct (overwrite_diagonal_total (length names) (seq 0 (length names)) M1 HM1)
    as (M & HM & _); [|by exists M].
  apply Forall_forall. intros i Hi. apply elem_of_seq in Hi. lia.
Qed.

(** The assembled frames, cell by cell: the diagonal is overwritten, every
    other cell is as the fill left it. *)
Lemma assemble_matrices_inv (res : result_map) (names origins : list string)
    (units : string) (M : matrices) :
  assemble_matrices res names origins units = Py.Ok M →
  ∃ M1,
    fill_matrices res names origins units = Py.Ok M1 ∧
    (∀ i, (i < length names)%nat →
       cell_at M i i = Some (0%float, 0%float, Some "OK")) ∧
    (∀ i j, i ≠ j → cell_at M i j = cell_at M1 i j).
Proof.
  unfold assemble_matrices.
  destruct (fill_matrices res names origins units) as [M1|e]; [|done]. simpl.
  intros [Hdiag Hframe]%overwrite_diagonal_inv. exists M1. split_and!; try done.
  - intros i Hi. apply Hdiag, elem_of_seq. lia.
  - intros i j Hne. apply Hframe. naive_solver.
Qed.

Lemma fill_matrices_inv (res : result_map) (names origins : list string)
    (units : string) (M : matrices) (i j : nat) (o d : string) :
  fill_matrices res names origins units = Py.Ok M →
  origins !! i = Some o → origins !! j = Some d →
  ∃ dc tc,
    distance_cell units (pair_or_missing res o d) = Py.Ok dc ∧
    duration_cell (pair_or_missing res o d) = Py.Ok tc ∧
    cell_at M i j = Some (dc, tc, status (pair_or_missing res o d)).
Proof.
  unfold fill_matrices. intros [Hcells _]%fill_rows_inv Ho Hd.
  apply (Hcells i o j d Ho Hd).
Qed.

(** C1: in the assembled frames every diagonal cell holds distance 0.0,
    duration 0.0 and status "OK", whatever the result dictionary holds for
    the pair of a token with itself; and the assembly does return frames
    when there are as many tokens as names and the recorded numbers can be
    converted to [float]. *)
Theorem assemble_matrices_diagonal (res : result_map) (names origins : list string)
    (units : string) :
  (∀ M, assemble_matrices res names origins units = Py.Ok M →
     ∀ i, (i < length names)%nat →
       iat (dist_km M) i i = Some 0%float ∧
       iat (time_min M) i i = Some 0%float ∧
       iat (status_tbl M) i i = Some (Some "OK"))
  ∧ (length origins = length names →
     (∀ k r, res !! k = Some r → convertible_pair r = true) →
     ∃ M, assemble_matrices res names origins units = Py.Ok M).
Proof.
  split.
  - intros M (M1 & _ & Hdiag & _)%assemble_matrices_inv i Hi.
    by apply cell_at_Some, Hdiag.
  - apply assemble_matrices_total.
Qed.

Lemma sample_results_convertible :
  ∀ k r, Sample.two_results !! k = Some r → convertible_pair r = true.
Proof.
  apply map_Forall_lookup. unfold Sample.two_results.
  repeat apply map_Forall_insert_2; try done; apply map_Forall_empty.
Defined.

Lemma assemble_matrices_diagonal_witness :
  ∃ M, assemble_matrices Sample.two_results Sample.two_names Sample.two_tokens "metric"
       = Py.Ok M ∧
       iat (dist_km M) 0 0 = Some 0%float ∧
       iat (time_min M) 0 0 = Some 0%float ∧
       iat (status_tbl M) 0 0 = Some (Some "OK").
Proof.
  destruct (proj2 (assemble_matrices_diagonal Sample.two_results Sample.two_names
                     Sample.two_tokens "metric") eq_refl sample_results_convertible)
    as [M HM].
  exists M. split; [exact HM|].
  apply (proj1 (assemble_matrices_diagonal Sample.two_results Sample.two_names
                  Sample.two_tokens "metric") M HM 0%nat).
  simpl. lia.
Defined.

Lemma assemble_matrices_off_diagonal (res : result_map) (names origins : list string)
    (units : string) (M : matrices) (i j : nat) (o d : string) :
  assemble_matrices res names origins units = Py.Ok M →
  i ≠ j → origins !! i = Some o → origins !! j = Some d →
  ∃ dc tc,
    distance_cell units (pair_or_missing res o d) = Py.Ok dc ∧
    duration_cell (pair_or_missing res o d) = Py.Ok tc ∧
    cell_at M i j = Some (dc, tc, status (pair_or_missing res o d)).
Proof.
  intros (M1 & Hfill & _ & Hframe)%assemble_matrices_inv Hne Ho Hd.
  rewrite (Hframe i j Hne). by eapply fill_matrices_inv.
Qed.

Lemma converted_cells_intro (units : string) (r : pair_result) (dc tc : float) :
  distance_cell units r = Py.Ok dc →
  duration_cell r = Py.Ok tc →
  converted_cells units r (Some dc) (Some tc).
Proof.
  intros Hdc Htc. split.
  - intros m Hm. unfold distance_cell in Hdc. rewrite Hm in Hdc.
    unfold Py.truediv in Hdc.
    destruct (Py.to_float m) as [f|e].
    + exists f. split; [done|]. split; intros ->.
      * rewrite bool_decide_eq_true_2 in Hdc by done. by injection Hdc as <-.
      * rewrite bool_decide_eq_false_2 in Hdc by done. by injection Hdc as <-.
    + case_bool_decide; discriminate Hdc.
  - intros s Hs. unfold duration_cell in Htc. rewrite Hs in Htc.
    unfold Py.truediv in Htc.
    destruct (Py.to_float s) as [f|e]; [|done].
    exists f. split; [done|]. by injection Htc as <-.
Qed.

(** C7: the fill loop writes, for a pair whose recorded distance is a
    number, that number divided by 1000 (units "metric") or by 1609.344
    (units "imperial") and rounded to two decimals, and for a pair whose
    recorded duration is a number, that number divided by 60 and rounded to
    one decimal; off the diagonal the assembled frames hold the same; the
    fill does return frames on well-formed input; 1000 m in metric units
    give 1.0 and 1609 m in imperial units give 1.0. *)
Theorem fill_matrices_units (res : result_map) (names origins : list string)
    (units : string) :
  (∀ M i j o d r,
     fill_matrices res names origins units = Py.Ok M →
     origins !! i = Some o → origins !! j = Some d → res !! (o, d) = Some r →
     converted_cells units r (iat (dist_km M) i j) (iat (time_min M) i j))
  ∧ (∀ M i j o d r,
       assemble_matrices res names origins units = Py.Ok M →
       i ≠ j →
       origins !! i = Some o → origins !! j = Some d → res !! (o, d) = Some r →
       converted_cells units r (iat (dist_km M) i j) (iat (time_min M) i j))
  ∧ (length origins = length names →
     (∀ k r, res !! k = Some r → convertible_pair r = true) →
     ∃ M, fill_matrices res names origins units = Py.Ok M)
  ∧ distance_cell "metric" (mkPair (Some (Py.PyInt 1000)) None (Some "OK"))
    = Py.Ok 1%float
  ∧ distance_cell "imperial" (mkPair (Some (Py.PyInt 1609)) None (Some "OK"))
    = Py.Ok 1%float.
Proof.
  split_and!.
  - intros M i j o d r Hfill Ho Hd Hr.
    destruct (fill_matrices_inv res names origins units M i j o d Hfill Ho Hd)
      as (dc & tc & Hdc & Htc & (-> & -> & _)%cell_at_Some).
    unfold pair_or_missing in Hdc, Htc. rewrite Hr in Hdc, Htc.
    by apply converted_cells_intro.
  - intros M i j o d r Hrun Hne Ho Hd Hr.
    destruct (assemble_matrices_off_diagonal res names origins units M i j o d
                Hrun Hne Ho Hd)
      as (dc & tc & Hdc & Htc & (-> & -> & _)%cell_at_Some).
    unfold pair_or_missing in Hdc, Htc. rewrite Hr in Hdc, Htc.
    by apply converted_cells_intro.
  - intros Hlen Hres.
    destruct (fill_matrices_total res names origins units Hlen Hres) as (M & HM & _).
    by exists M.
  - by vm_compute.
  - by vm_compute.
Qed.

Lemma fill_matrices_units_witness :
  ∃ M, fill_matrices Sample.two_results Sample.two_names Sample.two_tokens "metric"
       = Py.Ok M ∧
       iat (dist_km M) 0 1 = Some 1%float ∧
       iat (time_min M) 0 1 = Some 1.5%float.
Proof.
  pose proof (fill_matrices_units Sample.two_results Sample.two_names
                Sample.two_tokens "metric") as (Hfill & _ & Htotal & _).
  destruct (Htotal eq_refl sample_results_convertible) as [M HM].
  exists M. split; [exact HM|].
  destruct (Hfill M 0%nat 1%nat "a" "b" _ HM eq_refl eq_refl eq_refl) as [Hdist Hdur].
  destruct (Hdist _ eq_refl) as (f & Hf & Hmetric & _).
  destruct (Hdur _ eq_refl) as (g & Hg & Hmin).
  vm_compute in Hf, Hg. simplify_eq.
  split; [by rewrite (Hmetric eq_refl)|by rewrite Hmin].
Defined.

(** C8: for a pair of tokens that has no entry in the result dictionary the
    fill loop writes a missing distance (NaN), a missing duration (NaN) and
    the status "N/A"; off the diagonal the assembled frames hold the same;
    and the assembly does return frames on well-formed input. *)
Theorem fill_matrices_missing_pair (res : result_map) (names origins : list string)
    (units : string) :
  (∀ M i j o d,
     fill_matrices res names origins units = Py.Ok M →
     origins !! i = Some o → origins !! j = Some d → res !! (o, d) = None →
     iat (dist_km M) i j = Some nan ∧
     iat (time_min M) i j = Some nan ∧
     iat (status_tbl M) i j = Some (Some "N/A"))
  ∧ (∀ M i j o d,
       assemble_matrices res names origins units = Py.Ok M →
       i ≠ j →
       origins !! i = Some o → origins !! j = Some d → res !! (o, d) = None →
       iat (dist_km M) i j = Some nan ∧
       iat (time_min M) i j = Some nan ∧
       iat (status_tbl M) i j = Some (Some "N/A"))
  ∧ (length origins = length names →
     (∀ k r, res !! k = Some r → convertible_pair r = true) →
     ∃ M1 M, fill_matrices res names origins units = Py.Ok M1 ∧
             assemble_matrices res names origins units = Py.Ok M).
Proof.
  split_and!.
  - intros M i j o d Hfill Ho Hd Hr.
    destruct (fill_matrices_inv res names origins units M i j o d Hfill Ho Hd)
      as (dc & tc & Hdc & Htc & Hcell).
    unfold pair_or_missing in Hdc, Htc, Hcell. rewrite Hr in Hdc, Htc, Hcell.
    injection Hdc as <-. injection Htc as <-. by apply cell_at_Some.
  - intros M i j o d Hrun Hne Ho Hd Hr.
    destruct (assemble_matrices_off_diagonal res names origins units M i j o d
                Hrun Hne Ho Hd) as (dc & tc & Hdc & Htc & Hcell).
    unfold pair_or_missing in Hdc, Htc, Hcell. rewrite Hr in Hdc, Htc, Hcell.
    injection Hdc as <-. injection Htc as <-. by apply cell_at_Some.
  - intros Hlen Hres.
    destruct (fill_matrices_total res names origins units Hlen Hres) as (M1 & HM1 & _).
    destruct (assemble_matrices_total res names origins units Hlen Hres) as (M & HM).
    by exists M1, M.
Qed.

Lemma fill_matrices_missing_pair_witness :
  ∃ M, assemble_matrices Sample.two_results Sample.two_names Sample.two_tokens "metric"
       = Py.Ok M ∧
       iat (dist_km M) 1 0 = Some nan ∧
       iat (time_min M) 1 0 = Some nan ∧
       iat (status_tbl M) 1 0 = Some (Some "N/A").
Proof.
  pose proof (fill_matrices_missing_pair Sample.two_results Sample.two_names
                Sample.two_tokens "metric") as (_ & Hfinal & Htotal).
  destruct (Htotal eq_refl sample_results_convertible) as (M1 & M & _ & HM).
  exists M. split; [exact HM|].
  apply (Hfinal M 1%nat 0%nat "b" "a" HM); [lia|reflexivity|reflexivity|reflexivity].
Defined.

Lemma google_geocode_empty_address_witness :
  google_geocode true Sample.down_api "" "k" (mkSession ∅ []) = (None, mkSession ∅ [])
  ∧ geocode_cache
      (google_geocode true Sample.down_api "Hauptstr. 1, 12345 Berlin" "k"
         (mkSession ∅ [])).2 !! "Hauptstr. 1, 12345 Berlin"
    = Some None.
Proof.
  pose proof (google_geocode_empty_address true Sample.down_api "k" (mkSession ∅ []))
    as (Hempty & _ & _ & Hmark).
  split; [exact Hempty|].
  apply (Hmark "Hauptstr. 1, 12345 Berlin" "connection refused");
    [discriminate|reflexivity|reflexivity].
Defined.

Lemma google_geocode_twice_witness :
  let '(r1, st1) :=
    google_geocode true Sample.down_api "Berlin" "k" (mkSession ∅ []) in
  let '(_, st2) := geocode_all true Sample.down_api ["Potsdam"; ""] "k" st1 in
  let '(r2, st3) := google_geocode true Sample.down_api "Berlin" "k2" st2 in
  r2 = r1 ∧
  st3 = st2 ∧
  api_calls (trace st3) = api_calls (trace st2) ∧
  ("Berlin" ≠ "" →
   geocode_cache st1 !! "Berlin" = Some r1 ∧ geocode_cache st2 !! "Berlin" = Some r1).
Proof.
  exact (google_geocode_twice true Sample.down_api "Berlin" "k" "k" "k2"
           ["Potsdam"; ""] (mkSession ∅ [])).
Defined.

(** * Further properties *)

(** ** Geocoder: one call at a time *)

Lemma geocode_call_is_api_call (GMAPS_AVAILABLE : bool) (address key : string) :
  is_api_call (geocode_call GMAPS_AVAILABLE address key) = true.
Proof. by destruct GMAPS_AVAILABLE. Qed.

(** X1: whatever path a call of the geocoder takes, for a non-empty address
    the cache afterwards is the cache before with the address bound to the
    returned value (coordinates or the "not found" mark); for the empty
    address it is the cache before. *)
Theorem google_geocode_cache_after (GMAPS_AVAILABLE : bool)
    (geocode_api : nat -> event -> geo_response)
    (address key : string) (st : session) :
  let '(r, st') := google_geocode GMAPS_AVAILABLE geocode_api address key st in
  geocode_cache st'
  = if decide (address = "") then geocode_cache st
    else <[address := r]> (geocode_cache st).
Proof.
  unfold google_geocode. destruct (decide (address = "")) as [->|Hne]; [done|].
  apply truthy_true in Hne. rewrite Hne. simpl.
  destruct (geocode_cache st !! address) as [v|] eqn:Hc.
  - by rewrite insert_id.
  - by destruct (geocode_api _ _) as [e|[|[loc|e] rs]].
Qed.

(** X2: a call of the geocoder sends a request to the service exactly when
    the address is non-empty and has no entry in the cache, and then sends
    one request only. *)
Theorem google_geocode_api_calls (GMAPS_AVAILABLE : bool)
    (geocode_api : nat -> event -> geo_response)
    (address key : string) (st : session) :
  api_calls (trace (google_geocode GMAPS_AVAILABLE geocode_api address key st).2)
  = api_calls (trace st)
    ++ (if decide (address ≠ "" ∧ geocode_cache st !! address = None)
        then [geocode_call GMAPS_AVAILABLE address key] else []).
Proof.
  unfold google_geocode. destruct (decide (address = "")) as [->|Hne].
  - rewrite decide_False by naive_solver. simpl. by rewrite app_nil_r.
  - pose proof Hne as Ht. apply truthy_true in Ht. rewrite Ht.
    destruct (geocode_cache st !! address) as [v|] eqn:Hc.
    + rewrite decide_False by naive_solver. simpl. by rewrite app_nil_r.
    + rewrite decide_True by done. simpl.
      pose proof (geocode_call_is_api_call GMAPS_AVAILABLE address key) as Hcall.
      destruct (geocode_api _ _) as [e|[|[loc|e] rs]]; simpl;
        rewrite ?api_calls_app; simpl; rewrite Hcall; by rewrite ?app_nil_r.
Qed.

(** X3: when the service answers with an empty list of results the geocoder
    returns [None] and stores the "not found" mark without showing a
    warning; when the call raises it does the same and shows one warning
    that names the address and the error. *)
Theorem google_geocode_not_found (GMAPS_AVAILABLE : bool)
    (geocode_api : nat -> event -> geo_response)
    (address key : string) (st : session) :
  address ≠ "" →
  geocode_cache st !! address = None →
  let call := geocode_call GMAPS_AVAILABLE address key in
  let answer := geocode_api (length (api_calls (trace st))) call in
  (answer = GeoResults [] →
   google_geocode GMAPS_AVAILABLE geocode_api address key st
   = (None, mkSession (<[address := None]> (geocode_cache st)) (trace st ++ [call])))
  ∧ (∀ e, answer = GeoRaise e →
     google_geocode GMAPS_AVAILABLE geocode_api address key st
     = (None,
        mkSession (<[address := None]> (geocode_cache st))
          (trace st ++ [call; EvWarning ("Geocoding-Fehler für '" +:+ address +:+ "': " +:+ e)]))).
Proof.
  intros Hne Hmiss call answer. apply truthy_true in Hne.
  unfold google_geocode. rewrite Hne, Hmiss. simpl. fold call. fold answer.
  split.
  - by intros ->.
  - intros e ->. unfold emit, cache_store. simpl. by rewrite <- app_assoc.
Qed.

Lemma google_geocode_not_found_witness :
  google_geocode true Sample.down_api "Berlin" "k" (mkSession ∅ [])
  = (None,
     mkSession (<["Berlin" := None]> ∅)
       [EvClientGeocode "k" "Berlin";
        EvWarning "Geocoding-Fehler für 'Berlin': connection refused"]).
Proof.
  apply (proj2 (google_geocode_not_found true Sample.down_api "Berlin" "k"
                  (mkSession ∅ []) ltac:(discriminate) eq_refl)
           "connection refused" eq_refl).
Defined.

(** ** Geocoder: the loop over the addresses *)

Section GeocodeLoop.
Context (GMAPS_AVAILABLE : bool) (geocode_api : nat -> event -> geo_response).

Local Abbreviation geocode := (google_geocode GMAPS_AVAILABLE geocode_api).
Local Abbreviation geocode_list := (geocode_all GMAPS_AVAILABLE geocode_api).

(** The geocoder only adds: entries of the cache stay as they are, events
    stay where they are. *)
Lemma google_geocode_grows (address key : string) (st : session) :
  geocode_cache st ⊆ geocode_cache (geocode address key st).2 ∧
  trace st `prefix_of` trace (geocode address key st).2.
Proof.
  unfold google_geocode.
  destruct (Py.truthy address); simpl; [|done].
  destruct (geocode_cache st !! address) as [v|] eqn:Hc; [done|].
  destruct (geocode_api _ _) as [e|[|[loc|e] rs]]; simpl; split;
    try (by apply insert_subseteq).
  - rewrite <- app_assoc. by apply prefix_app_r.
  - by apply prefix_app_r.
  - by apply prefix_app_r.
  - rewrite <- app_assoc. by apply prefix_app_r.
Qed.

Lemma geocode_all_grows (addresses : list string) (key : string) (st : session) :
  geocode_cache st ⊆ geocode_cache (geocode_list addresses key st).2 ∧
  trace st `prefix_of` trace (geocode_list addresses key st).2.
Proof.
  revert st. induction addresses as [|addr rest IH]; intros st; [done|].
  simpl. destruct (google_geocode_grows addr key st) as [Hc Ht].
  destruct (geocode addr key st) as [c st1]. simpl in Hc, Ht.
  destruct (IH st1) as [Hc' Ht'].
  destruct (geocode_list rest key st1) as [cs st2]. simpl in *.
  split; by etrans.
Qed.

Lemma answered_by_mono (cache cache' : gmap string (option coord)) (a : string)
    (c : option coord) :
  cache ⊆ cache' → answered_by cache a c → answered_by cache' a c.
Proof.
  unfold answered_by. intros Hsub. case_decide; [done|].
  intros Hc. by eapply lookup_weaken.
Qed.

Lemma geocode_all_answered (addresses : list string) (key : string) (st : session) :
  Forall2 (answered_by (geocode_cache (geocode_list addresses key st).2))
    addresses (geocode_list addresses key st).1.
Proof.
  revert st. induction addresses as [|addr rest IH]; intros st; [by constructor|].
  simpl.
  assert (answered_by (geocode_cache (geocode addr key st).2) addr
            (geocode addr key st).1) as Hfirst.
  { unfold answered_by. case_decide as Ha; [by subst|].
    by apply google_geocode_stores. }
  destruct (geocode addr key st) as [c st1]. simpl in Hfirst.
  specialize (IH st1).
  pose proof (geocode_all_grows rest key st1) as [Hsub _].
  destruct (geocode_list rest key st1) as [cs st2]. simpl in *.
  constructor; [|done]. by eapply answered_by_mono.
Qed.

(** With every address answered by the cache already, the loop returns the
    cached values and changes nothing. *)
Lemma geocode_all_cached (addresses : list string) (coords : list (option coord))
    (key : string) (st : session) :
  Forall2 (answered_by (geocode_cache st)) addresses coords →
  geocode_list addresses key st = (coords, st).
Proof.
  induction 1 as [|a c rest cs Ha Hrest IH]; [done|].
  simpl. unfold answered_by in Ha.
  destruct (decide (a = "")) as [->|Hne].
  - subst. rewrite google_geocode_empty. by rewrite IH.
  - rewrite (google_geocode_hit _ _ a key st c Hne Ha). by rewrite IH.
Qed.

End GeocodeLoop.

(** X4: the geocoding loop returns one value per address; the value of an
    empty address is [None], and the value of a non-empty address is what
    the cache holds for it when the loop ends. *)
Theorem geocode_all_coords (GMAPS_AVAILABLE : bool)
    (geocode_api : nat -> event -> geo_response)
    (addresses : list string) (key : string) (st : session) :
  let '(coords, st') := geocode_all GMAPS_AVAILABLE geocode_api addresses key st in
  length coords = length addresses ∧
  Forall2 (fun a c =>
             if decide (a = "") then c = None
             else geocode_cache st' !! a = Some c)
    addresses coords.
Proof.
  pose proof (geocode_all_answered GMAPS_AVAILABLE geocode_api addresses key st) as H.
  destruct (geocode_all _ _ addresses key st) as [coords st']. simpl in H.
  split; [|done]. symmetry. by eapply Forall2_length.
Qed.

(** X5: running the geocoding loop a second time over the same addresses
    (with any key) returns the same coordinates and leaves the session as
    the first run left it: no request, no warning, no change of the
    cache. *)
Theorem geocode_all_again (GMAPS_AVAILABLE : bool)
    (geocode_api : nat -> event -> geo_response)
    (addresses : list string) (key key2 : string) (st : session) :
  let '(coords, st1) := geocode_all GMAPS_AVAILABLE geocode_api addresses key st in
  geocode_all GMAPS_AVAILABLE geocode_api addresses key2 st1 = (coords, st1).
Proof.
  pose proof (geocode_all_answered GMAPS_AVAILABLE geocode_api addresses key st) as H.
  destruct (geocode_all _ _ addresses key st) as [coords st1]. simpl in H.
  by apply geocode_all_cached.
Qed.

(** X6: the geocoder and its loop only add to the session: every entry of
    the cache is still there, with the same value, afterwards, and the
    events so far are a prefix of the events afterwards. *)
Theorem geocode_all_only_adds (GMAPS_AVAILABLE : bool)
    (geocode_api : nat -> event -> geo_response)
    (addresses : list string) (key : string) (st : session) :
  let st' := (geocode_all GMAPS_AVAILABLE geocode_api addresses key st).2 in
  (∀ a v, geocode_cache st !! a = Some v → geocode_cache st' !! a = Some v) ∧
  trace st `prefix_of` trace st'.
Proof.
  intros st'. destruct (geocode_all_grows GMAPS_AVAILABLE geocode_api addresses key st)
    as [Hsub Hpre].
  split; [|done]. intros a v Ha. by eapply lookup_weaken.
Qed.

(** ** Chunks of any size *)

(** X7: for any positive size the generator cuts a list into consecutive
    chunks: put end to end they are the list, there are
    ceil(len / size) of them, none is empty or longer than [size], and
    every chunk but the last has exactly [size] elements. *)
Theorem chunk_list_sizes {A : Type} (l : list A) (size : nat) :
  (0 < size)%nat →
  concat (chunk_list l size) = l ∧
  length (chunk_list l size) = ((length l + size - 1) / size)%nat ∧
  ∀ k c, chunk_list l size !! k = Some c →
    (0 < length c ≤ size)%nat ∧
    (S k < length (chunk_list l size) → length c = size)%nat.
Proof.
  intros Hsize. split_and!.
  - by apply chunk_list_concat.
  - apply chunk_list_length.
  - pattern l. apply (chunk_list_ind size); [done| |]; clear l.
    + intros k c. by rewrite chunk_list_nil.
    + intros l Hl IH k c. rewrite chunk_list_cons by done.
      destruct k as [|k]; simpl.
      * intros [= <-]. rewrite length_take. split.
        -- destruct l; [done|]. simpl. lia.
        -- intros Hmore. destruct (decide (length l ≤ size)%nat) as [Hle|Hgt]; [|lia].
           rewrite (drop_ge l size Hle), chunk_list_nil in Hmore by done.
           simpl in Hmore. lia.
      * intros Hk. destruct (IH k c Hk) as [Hbounds Hfull].
        split; [done|]. intros Hmore. apply Hfull. lia.
Qed.

Lemma chunk_list_sizes_witness :
  chunk_list (seq 0 7) 3 !! 1%nat = Some [3; 4; 5]%nat ∧
  length (chunk_list (seq 0 7) 3) = 3%nat.
Proof.
  destruct (chunk_list_sizes (seq 0 7) 3 ltac:(lia)) as (_ & Hlen & _).
  split; [reflexivity|exact Hlen].
Defined.

(** ** Batch distance client: edges *)

Lemma list_prod_nil_r {A B : Type} (l : list A) : list_prod l (@nil B) = [].
Proof. induction l; [done|]. simpl. done. Qed.

Lemma chunk_list_elem {A : Type} (l c : list A) (size : nat) (x : A) :
  (0 < size)%nat → c ∈ chunk_list l size → x ∈ c → x ∈ l.
Proof.
  intros Hsize Hc Hx. rewrite <- (chunk_list_concat l size Hsize).
  by eapply elem_of_concat_2.
Qed.

(** X8: with no origins or no destinations the client sends nothing, does
    not sleep and returns the empty dictionary. *)
Theorem distance_matrix_batch_empty
    (distance_api : nat -> gmap string string -> dm_response)
    (key mode units : string) (use_traffic : bool) (rate_limit_delay : float)
    (tokens : list string) :
  distance_matrix_batch distance_api key mode units use_traffic rate_limit_delay
    [] tokens = mkBatch ∅ []
  ∧ distance_matrix_batch distance_api key mode units use_traffic rate_limit_delay
      tokens [] = mkBatch ∅ [].
Proof.
  split; unfold distance_matrix_batch; rewrite batch_loop_pairs; unfold chunk_pairs.
  - by rewrite chunk_list_nil by (unfold max_origins; lia).
  - rewrite (chunk_list_nil max_destinations) by (unfold max_destinations; lia).
    by rewrite list_prod_nil_r.
Qed.

Section BatchEvents.
Context (distance_api : nat -> gmap string string -> dm_response).
Context (key mode units : string) (use_traffic : bool) (rate_limit_delay : float).

Local Abbreviation step :=
  (request_chunk_pair distance_api key mode units use_traffic rate_limit_delay).
Local Abbreviation run :=
  (request_pairs distance_api key mode units use_traffic rate_limit_delay).

Lemma request_chunk_pair_events (st : batch_state) (o_chunk d_chunk : list string) :
  events (step st o_chunk d_chunk)
  = events st ++ [request_of key mode units use_traffic (o_chunk, d_chunk);
                  EvSleep rate_limit_delay].
Proof.
  unfold request_chunk_pair.
  destruct (distance_api _ _) as [e|rows]; [|destruct (store_rows _ _ _ _ _) as [res [e|]]];
    simpl; by rewrite <- app_assoc.
Qed.

Lemma request_pairs_events (pairs : list (list string * list string)) (st : batch_state) :
  events (run pairs st)
  = events st
    ++ flat_map (fun p => [request_of key mode units use_traffic p;
                           EvSleep rate_limit_delay]) pairs.
Proof.
  revert st. induction pairs as [|[oc dc] pairs IH]; intros st.
  - simpl. by rewrite app_nil_r.
  - change (run ((oc, dc) :: pairs) st) with (run pairs (step st oc dc)).
    rewrite IH, request_chunk_pair_events. simpl. by rewrite <- app_assoc.
Qed.

End BatchEvents.


(** X10: every key of the returned dictionary is a pair of one of the
    origins and one of the destinations. *)
Theorem distance_matrix_batch_keys
    (distance_api : nat -> gmap string string -> dm_response)
    (key mode units : string) (use_traffic : bool) (rate_limit_delay : float)
    (origins destinations : list string) (o d : string) (r : pair_result) :
  results (distance_matrix_batch distance_api key mode units use_traffic
             rate_limit_delay origins destinations) !! (o, d) = Some r →
  o ∈ origins ∧ d ∈ destinations.
Proof.
  intros Hr.
  destruct (decide (o ∈ origins ∧ d ∈ destinations)) as [|Hout]; [done|].
  exfalso. revert Hr. unfold distance_matrix_batch.
  rewrite batch_loop_pairs, request_pairs_frame; [done|].
  apply Forall_forall. intros [oc dc] Hin [Ho Hd]. simpl in Ho, Hd.
  apply list_elem_of_In, in_prod_iff in Hin as [Hoc Hdc].
  apply list_elem_of_In in Hoc, Hdc. apply Hout. split.
  - eapply (chunk_list_elem origins oc max_origins); [unfold max_origins; lia|done|done].
  - eapply (chunk_list_elem destinations dc max_destinations);
      [unfold max_destinations; lia|done|done].
Qed.

Lemma distance_matrix_batch_keys_witness :
  "a" ∈ Sample.two_tokens ∧ "b" ∈ Sample.two_tokens.
Proof.
  apply (distance_matrix_batch_keys Sample.flaky_api "k" "driving" "metric" true
           0.5%float Sample.two_tokens Sample.two_tokens "a" "b"
           (mkPair None None (Some "ERROR: timeout"))).
  by vm_compute.
Defined.

(** ** Batch distance client: what an answer leaves *)

(** Whether storing an answer raises, and what, does not depend on the
    dictionary it is stored into. *)
Lemma store_element_raise_indep (o_chunk d_chunk : list string) (i j : nat)
    (elem : dm_element) (res res' : result_map) :
  match store_element o_chunk d_chunk i j elem res,
        store_element o_chunk d_chunk i j elem res' with
  | Py.Ok _, Py.Ok _ => True
  | Py.Raise e, Py.Raise e' => e = e'
  | _, _ => False
  end.
Proof.
  unfold store_element, Py.list_index.
  destruct (o_chunk !! i); [|done]. destruct (d_chunk !! j); [|done].
  by destruct (element_record elem).
Qed.

Lemma store_row_raise_indep (o_chunk d_chunk : list string) (i j : nat)
    (elems : list dm_element) (res res' : result_map) :
  (store_row o_chunk d_chunk i j elems res).2
  = (store_row o_chunk d_chunk i j elems res').2.
Proof.
  revert j res res'. induction elems as [|elem rest IH]; intros j res res'; [done|].
  simpl. pose proof (store_element_raise_indep o_chunk d_chunk i j elem res res') as H.
  destruct (store_element o_chunk d_chunk i j elem res),
    (store_element o_chunk d_chunk i j elem res'); try done.
  all: try apply IH.
  all: by subst.
Qed.

Lemma store_rows_raise_indep (o_chunk d_chunk : list string) (i : nat)
    (rows : list (list dm_element)) (res res' : result_map) :
  (store_rows o_chunk d_chunk i rows res).2
  = (store_rows o_chunk d_chunk i rows res').2.
Proof.
  revert i res res'. induction rows as [|row rest IH]; intros i res res'; [done|].
  simpl. pose proof (store_row_raise_indep o_chunk d_chunk i 0 row res res') as H.
  destruct (store_row o_chunk d_chunk i 0 row res) as [r1 [e1|]],
    (store_row o_chunk d_chunk i 0 row res') as [r2 [e2|]]; simplify_eq/=; try done.
  all: try apply IH.
Qed.



Lemma element_record_not_OK (elem : dm_element) :
  elem_status elem ≠ Some "OK" →
  element_record elem = Py.Ok (mkPair None None (elem_status elem)).
Proof. intros Hst. unfold element_record. by rewrite bool_decide_eq_false_2. Qed.

Lemma element_record_OK (elem : dm_element) (dist dur : option Py.pynum) :
  elem_status elem = Some "OK" →
  elem_distance elem = Py.Ok dist → elem_duration elem = Py.Ok dur →
  element_record elem = Py.Ok (mkPair dist dur (Some "OK")).
Proof.
  intros Hst Hdist Hdur. unfold element_record.
  by rewrite bool_decide_eq_true_2, Hdist, Hdur, Hst.
Qed.



(** With distinct tokens, the pairs of the [k]-th pair of chunks have no
    entry when its request is sent, and keep what that request leaves. *)
Lemma distance_matrix_batch_split
    (distance_api : nat -> gmap string string -> dm_response)
    (key mode units : string) (use_traffic : bool) (rate_limit_delay : float)
    (origins destinations : list string) (k : nat) (o_chunk d_chunk : list string)
    (o d : string) :
  NoDup origins → NoDup destinations →
  chunk_pairs origins destinations !! k = Some (o_chunk, d_chunk) →
  o ∈ o_chunk → d ∈ d_chunk →
  let before :=
    request_pairs distance_api key mode units use_traffic rate_limit_delay
      (take k (chunk_pairs origins destinations)) (mkBatch ∅ []) in
  results before !! (o, d) = None ∧
  length (api_calls (events before)) = k ∧
  results (distance_matrix_batch distance_api key mode units use_traffic
             rate_limit_delay origins destinations) !! (o, d)
  = results (request_chunk_pair distance_api key mode units use_traffic
               rate_limit_delay before o_chunk d_chunk) !! (o, d).
Proof.
  intros Hno Hnd Hk Ho Hd before.
  set (pairs := chunk_pairs origins destinations) in *.
  split_and!.
  - unfold before. rewrite request_pairs_frame; [done|].
    apply Forall_forall. intros [oc' dc'] Hin [Ho' Hd']. simpl in Ho', Hd'.
    apply list_elem_of_lookup in Hin as [i Hi].
    apply lookup_take_Some in Hi as [Hi Hlt].
    pose proof (chunk_pairs_disjoint origins destinations k i _ _ _ _ o d
                  Hno Hnd Hk Hi Ho Hd Ho' Hd'). lia.
  - unfold before. rewrite request_pairs_calls. simpl.
    rewrite length_fmap, length_take. apply lookup_lt_Some in Hk. lia.
  - unfold distance_matrix_batch. rewrite batch_loop_pairs. fold pairs.
    rewrite <- (take_drop_middle pairs k (o_chunk, d_chunk) Hk) at 1.
    rewrite request_pairs_app. fold before.
    change (request_pairs distance_api key mode units use_traffic rate_limit_delay
              ((o_chunk, d_chunk) :: drop (S k) pairs) before)
      with (request_pairs distance_api key mode units use_traffic rate_limit_delay
              (drop (S k) pairs)
              (request_chunk_pair distance_api key mode units use_traffic
                 rate_limit_delay before o_chunk d_chunk)).
    apply request_pairs_frame.
    apply Forall_forall. intros [oc' dc'] Hin [Ho' Hd']. simpl in Ho', Hd'.
    apply list_elem_of_lookup in Hin as [i Hi]. rewrite lookup_drop in Hi.
    pose proof (chunk_pairs_disjoint origins destinations k (S k + i) _ _ _ _ o d
                  Hno Hnd Hk Hi Ho Hd Ho' Hd'). lia.
Qed.



(** ** Matrix assembler: shape and missing values *)

Lemma iat_set_keeps_square {A : Type} (n : nat) (frame frame' : list (list A))
    (i j : nat) (v : A) :
  square n frame → iat_set frame i j v = Py.Ok frame' → square n frame'.
Proof.
  intros [Hlen Hrows]. unfold iat_set.
  destruct (frame !! i) as [row|] eqn:Hrow; [|done].
  case_bool_decide; [|done]. intros [= <-]. split.
  - by rewrite length_insert.
  - apply Forall_insert; [done|]. rewrite length_insert.
    rewrite Forall_forall in Hrows. apply Hrows. by eapply list_elem_of_lookup_2.
Qed.

Lemma fill_cell_keeps_square (units : string) (res : result_map) (n i j : nat)
    (o d : string) (M M' : matrices) :
  square_matrices n M → fill_cell units res i o j d M = Py.Ok M' →
  square_matrices n M'.
Proof.
  intros (HD & HT & HS). unfold fill_cell.
  destruct (distance_cell units _) as [dc|e]; [|done]. simpl.
  destruct (iat_set (dist_km M) i j dc) as [D|e] eqn:HD'; [|done]. simpl.
  destruct (duration_cell _) as [tc|e]; [|done]. simpl.
  destruct (iat_set (time_min M) i j tc) as [T|e] eqn:HT'; [|done]. simpl.
  destruct (iat_set (status_tbl M) i j _) as [S|e] eqn:HS'; [|done]. simpl.
  intros [= <-]. split; [|split]; simpl;
    [exact (iat_set_keeps_square n _ _ _ _ _ HD HD')
    |exact (iat_set_keeps_square n _ _ _ _ _ HT HT')
    |exact (iat_set_keeps_square n _ _ _ _ _ HS HS')].
Qed.

Lemma fill_row_keeps_square (units : string) (res : result_map) (n i j : nat)
    (o : string) (destinations : list string) (M M' : matrices) :
  square_matrices n M → fill_row units res i o j destinations M = Py.Ok M' →
  square_matrices n M'.
Proof.
  revert j M. induction destinations as [|d rest IH]; intros j M HM Hrun.
  - by injection Hrun as <-.
  - simpl in Hrun.
    destruct (fill_cell units res i o j d M) as [M1|e] eqn:Hcell; [|done].
    eapply IH; [|exact Hrun]. by eapply fill_cell_keeps_square.
Qed.

Lemma fill_rows_keeps_square (units : string) (res : result_map) (n i : nat)
    (origins destinations : list string) (M M' : matrices) :
  square_matrices n M → fill_rows units res i origins destinations M = Py.Ok M' →
  square_matrices n M'.
Proof.
  revert i M. induction origins as [|o rest IH]; intros i M HM Hrun.
  - by injection Hrun as <-.
  - simpl in Hrun.
    destruct (fill_row units res i o 0 destinations M) as [M1|e] eqn:Hrow; [|done].
    eapply IH; [|exact Hrun]. by eapply fill_row_keeps_square.
Qed.

Lemma overwrite_diagonal_keeps_square (n : nat) (indices : list nat) (M M' : matrices) :
  square_matrices n M → overwrite_diagonal indices M = Py.Ok M' →
  square_matrices n M'.
Proof.
  revert M. induction indices as [|i rest IH]; intros M HM Hrun.
  - by injection Hrun as <-.
  - simpl in Hrun. destruct (set_diagonal i M) as [M1|e] eqn:Hset; [|done].
    eapply IH; [|exact Hrun]. destruct HM as (HD & HT & HS).
    unfold set_diagonal in Hset.
    destruct (iat_set (dist_km M) i i _) as [D|e] eqn:HD'; [|done]. simpl in Hset.
    destruct (iat_set (time_min M) i i _) as [T|e] eqn:HT'; [|done]. simpl in Hset.
    destruct (iat_set (status_tbl M) i i _) as [S|e] eqn:HS'; [|done]. simpl in Hset.
    injection Hset as <-. split; [|split]; simpl;
    [exact (iat_set_keeps_square n _ _ _ _ _ HD HD')
    |exact (iat_set_keeps_square n _ _ _ _ _ HT HT')
    |exact (iat_set_keeps_square n _ _ _ _ _ HS HS')].
Qed.

(** X14: whenever the assembly returns, each of the three frames has
    exactly [len(names)] rows of [len(names)] cells. *)
Theorem assemble_matrices_shape (res : result_map) (names origins : list string)
    (units : string) (M : matrices) :
  assemble_matrices res names origins units = Py.Ok M →
  (length (dist_km M) = length names ∧
   Forall (fun row => length row = length names) (dist_km M)) ∧
  (length (time_min M) = length names ∧
   Forall (fun row => length row = length names) (time_min M)) ∧
  (length (status_tbl M) = length names ∧
   Forall (fun row => length row = length names) (status_tbl M)).
Proof.
  unfold assemble_matrices.
  destruct (fill_matrices res names origins units) as [M1|e] eqn:Hfill; [|done].
  simpl. intros Hrun.
  eapply (overwrite_diagonal_keeps_square (length names)); [|exact Hrun].
  eapply fill_rows_keeps_square; [|exact Hfill]. apply new_matrices_square.
Qed.

Lemma assemble_matrices_shape_witness :
  ∃ M, assemble_matrices Sample.two_results Sample.two_names Sample.two_tokens "metric"
       = Py.Ok M ∧ length (dist_km M) = 2%nat.
Proof.
  destruct (assemble_matrices_total Sample.two_results Sample.two_names
              Sample.two_tokens "metric" eq_refl sample_results_convertible) as [M HM].
  exists M. split; [exact HM|].
  apply (assemble_matrices_shape Sample.two_results Sample.two_names
           Sample.two_tokens "metric" M HM).
Defined.

(** X15: for a pair that the result dictionary records, the fill loop
    copies the recorded status as it is to the status frame, and writes a
    missing value (NaN) where the recorded distance, or the recorded
    duration, is [None]; off the diagonal the assembled frames hold the
    same. *)
Theorem fill_matrices_recorded_null (res : result_map) (names origins : list string)
    (units : string) (M : matrices) (i j : nat) (o d : string) (r : pair_result) :
  origins !! i = Some o → origins !! j = Some d → res !! (o, d) = Some r →
  fill_matrices res names origins units = Py.Ok M
  ∨ (assemble_matrices res names origins units = Py.Ok M ∧ i ≠ j) →
  iat (status_tbl M) i j = Some (status r) ∧
  (distance_m r = None → iat (dist_km M) i j = Some nan) ∧
  (duration_s r = None → iat (time_min M) i j = Some nan).
Proof.
  intros Ho Hd Hr Hrun.
  assert (∃ dc tc,
            distance_cell units r = Py.Ok dc ∧ duration_cell r = Py.Ok tc ∧
            cell_at M i j = Some (dc, tc, status r)) as (dc & tc & Hdc & Htc & Hcell).
  { destruct Hrun as [Hfill|[Hasm Hne]].
    - destruct (fill_matrices_inv res names origins units M i j o d Hfill Ho Hd)
        as (dc & tc & Hdc & Htc & Hcell).
      unfold pair_or_missing in *. rewrite Hr in *. by exists dc, tc.
    - destruct (assemble_matrices_off_diagonal res names origins units M i j o d
                  Hasm Hne Ho Hd) as (dc & tc & Hdc & Htc & Hcell).
      unfold pair_or_missing in *. rewrite Hr in *. by exists dc, tc. }
  apply cell_at_Some in Hcell as (HD & HT & HS). split_and!; [done| |].
  - intros Hnone. unfold distance_cell in Hdc. rewrite Hnone in Hdc.
    injection Hdc as <-. done.
  - intros Hnone. unfold duration_cell in Htc. rewrite Hnone in Htc.
    injection Htc as <-. done.
Qed.

Lemma fill_matrices_recorded_null_witness :
  ∃ M, assemble_matrices Sample.not_found_results
         Sample.two_names Sample.two_tokens "metric" = Py.Ok M ∧
       iat (status_tbl M) 0 1 = Some (Some "NOT_FOUND") ∧
       iat (dist_km M) 0 1 = Some nan.
Proof.
  assert (∀ k r, Sample.not_found_results !! k = Some r → convertible_pair r = true)
    as Hconv.
  { apply map_Forall_lookup. apply map_Forall_insert_2; [done|]. apply map_Forall_empty. }
  destruct (assemble_matrices_total Sample.not_found_results Sample.two_names
              Sample.two_tokens "metric" eq_refl Hconv) as [M HM].
  exists M. split; [exact HM|].
  destruct (fill_matrices_recorded_null Sample.not_found_results Sample.two_names
              Sample.two_tokens "metric"
              M 0 1 "a" "b" (mkPair None None (Some "NOT_FOUND"))
              eq_refl eq_refl eq_refl (or_intror (conj HM (O_S 0))))
    as (Hst & Hdist & _).
  split; [exact Hst|exact (Hdist eq_refl)].
Defined.

(** ** From the service's answers to the frames *)

Lemma distance_cell_number (units : string) (r : pair_result) (m : Py.pynum) (dc : float) :
  distance_m r = Some m → distance_cell units r = Py.Ok dc →
  ∃ f, Py.to_float m = Py.Ok f ∧ dc = Py.round (f / unit_divisor units) 2.
Proof.
  intros Hm. unfold distance_cell, unit_divisor, Py.truediv. rewrite Hm.
  destruct (Py.to_float m) as [f|e].
  - intros Hdc. exists f. split; [done|].
    case_bool_decide; by injection Hdc as <-.
  - intros Hdc. case_bool_decide; discriminate Hdc.
Qed.

Lemma duration_cell_number (r : pair_result) (s : Py.pynum) (tc : float) :
  duration_s r = Some s → duration_cell r = Py.Ok tc →
  ∃ g, Py.to_float s = Py.Ok g ∧ tc = Py.round (g / 60) 1.
Proof.
  intros Hs. unfold duration_cell, Py.truediv. rewrite Hs.
  destruct (Py.to_float s) as [g|e]; [|done].
  intros Htc. exists g. split; [done|]. by injection Htc as <-.
Qed.

(** With distinct tokens and an answer that fits, the record the client
    returns for an element of the answer. *)
Lemma distance_matrix_batch_element_record
    (distance_api : nat -> gmap string string -> dm_response)
    (key mode units : string) (use_traffic : bool) (rate_limit_delay : float)
    (origins destinations : list string) (k : nat) (o_chunk d_chunk : list string)
    (rows : list (list dm_element)) (a b : nat) (row : list dm_element)
    (elem : dm_element) (o d : string) :
  NoDup origins → NoDup destinations →
  chunk_pairs origins destinations !! k = Some (o_chunk, d_chunk) →
  distance_api k (build_params key mode units use_traffic o_chunk d_chunk)
  = DmRows rows →
  answer_fits o_chunk d_chunk rows →
  rows !! a = Some row → row !! b = Some elem →
  o_chunk !! a = Some o → d_chunk !! b = Some d →
  ∃ r, element_record elem = Py.Ok r ∧
       results (distance_matrix_batch distance_api key mode units use_traffic
                  rate_limit_delay origins destinations) !! (o, d) = Some r.
Proof.
  intros Hno Hnd Hk Hresp Hfit Ha Hb Ho Hd.
  destruct (distance_matrix_batch_at distance_api key mode units use_traffic
              rate_limit_delay origins destinations k o_chunk d_chunk Hno Hnd Hk)
    as (Hnoc & Hndc & before & Hcount & Hfinal).
  destruct (request_chunk_pair_answered distance_api key mode units use_traffic
              rate_limit_delay before o_chunk d_chunk rows a b row elem)
    as (o' & d' & r & Ho' & Hd' & Hr & Hres); try done.
  { by rewrite Hcount. }
  simplify_eq. exists r. split; [done|].
  rewrite Hfinal; [done| |]; by eapply list_elem_of_lookup_2.
Qed.





(** ** Address builder: the country is always there *)

Lemma string_app_assoc (a b c : string) : (a +:+ b) +:+ c = a +:+ (b +:+ c).
Proof.
  induction a as [|x a IH]; [done|].
  change (String x ((a +:+ b) +:+ c) = String x (a +:+ (b +:+ c))). by rewrite IH.
Qed.

Lemma string_app_empty_r (a : string) : a +:+ "" = a.
Proof.
  induction a as [|x a IH]; [done|].
  change (String x (a +:+ "") = String x a). by rewrite IH.
Qed.

Lemma string_app_nonempty_r (a b : string) : b ≠ "" → a +:+ b ≠ "".
Proof.
  intros Hb. destruct a as [|x a]; [done|].
  change (String x (a +:+ b) ≠ ""). discriminate.
Qed.

(** A join whose last item is [c] ends with [c]. *)
Lemma join_snoc (sep : string) (l : list string) (c : string) :
  ∃ prefix, Py.join sep (l ++ [c]) = prefix +:+ c.
Proof.
  induction l as [|s rest [prefix IH]].
  - by exists "".
  - simpl. destruct (rest ++ [c]) as [|x xs] eqn:Hrest.
    + by destruct rest.
    + exists (s +:+ sep +:+ prefix). rewrite IH.
      by rewrite !string_app_assoc.
Qed.

Lemma format_address_ends_with_country (street zipc city : option string)
    (country a : string) :
  format_address street zipc city (Some country) = Py.Ok a →
  a ≠ "" ∧
  ∃ prefix, a = prefix +:+ (if Py.truthy country then country else "Deutschland").
Proof.
  intros Ha.
  destruct (format_address_returns _ _ _ _ _ Ha) as (s & z & ci & -> & -> & ->).
  rewrite format_address_segments in Ha.
  assert (∀ x y : string, Py.Ok x = Py.Ok y → x = y) as Hinj
    by (by intros x y [= ->]).
  apply Hinj in Ha. subst a. clear Hinj.
  set (c := if Py.truthy country then country else "Deutschland").
  assert (c ≠ "") as Hc.
  { unfold c. destruct country; [done|]. simpl. discriminate. }
  assert (Py.truthy c = true) as Hct by (by apply truthy_true).
  set (l := List.filter Py.truthy [s; Py.join " " (List.filter Py.truthy [z; ci])]).
  assert (List.filter Py.truthy
            [s; Py.join " " (List.filter Py.truthy [z; ci]); c] = l ++ [c]) as ->.
  { change [s; Py.join " " (List.filter Py.truthy [z; ci]); c]
      with ([s; Py.join " " (List.filter Py.truthy [z; ci])] ++ [c]).
    assert (List.filter Py.truthy [c] = [c]) as Hfc by (simpl; by rewrite Hct).
    by rewrite List.filter_app, Hfc. }
  destruct (join_snoc ", " l c) as [prefix Hp].
  rewrite Hp. split; [by apply string_app_nonempty_r|by exists prefix].
Qed.

(** X18: the builder returns exactly when no row of the table has a missing
    street, zip or city (a missing value makes a join raise); when it
    returns, it returns one address per row, and every address is non-empty
    and ends with the row's country, or with "Deutschland" when the row has
    none (the column is absent, or the cell is blank or missing). *)
Theorem build_full_address_country {cell : Type} (astype_str : cell -> option string)
    (df : DataFrame cell) (col_map : gmap string (option string)) :
  ((∃ addresses, build_full_address astype_str df col_map = Py.Ok addresses) ↔
   ∀ i, (i < df_len df)%nat → row_complete astype_str df col_map i) ∧
  ∀ addresses,
    build_full_address astype_str df col_map = Py.Ok addresses →
    length addresses = df_len df ∧
    ∀ i a, addresses !! i = Some a →
      ∃ country,
        iat_or_empty (country_series astype_str df col_map) i = Some country ∧
        a ≠ "" ∧
        ∃ prefix,
          a = prefix +:+ (if Py.truthy country then country else "Deutschland").
Proof.
  split; [apply build_full_address_returns|].
  intros addresses Hret.
  pose proof (build_full_address_length _ _ _ _ Hret) as Hlen.
  split; [done|].
  intros i a Ha.
  assert (i < df_len df)%nat as Hi.
  { apply lookup_lt_Some in Ha. by rewrite Hlen in Ha. }
  destruct (build_full_address_lookup _ _ _ _ _ Hret Hi) as (a' & Hrow & Hlook).
  assert (a' = a) as -> by congruence.
  destruct (country_series_text astype_str df col_map i) as [country Hcountry].
  exists country. split; [done|].
  unfold address_of_row, row_address in Hrow. rewrite Hcountry in Hrow.
  by apply format_address_ends_with_country in Hrow.
Qed.

(** ** Tokens and sampling *)

Lemma comprehension_fmap {A B : Type} (f : A → Py.result B) (g : A → B) (l : list A) :
  (∀ x, x ∈ l → f x = Py.Ok (g x)) → comprehension f l = Py.Ok (g <$> l).
Proof.
  induction l as [|x rest IH]; intros Hf; [done|].
  simpl. rewrite (Hf x) by (by left). simpl.
  rewrite IH by (intros y Hy; apply Hf; by right). done.
Qed.

Lemma existsb_is_Some_false {A : Type} (col : list (option A)) (i : nat) :
  existsb (fun v => bool_decide (is_Some v)) col = false → col !! i ≫= id = None.
Proof.
  revert i. induction col as [|v col IH]; intros i Hex; [done|].
  simpl in Hex. apply orb_false_iff in Hex as [Hv Hrest].
  destruct i as [|i]; simpl.
  - destruct v; [|done]. by rewrite bool_decide_eq_true_2 in Hv.
  - by apply IH.
Qed.

(** X19: for a table of [n] rows with [n] addresses (and, if it has a
    "latlng" column, [n] entries in it) the token list is built without an
    exception, has one token per row, and the token of a row is its latlng
    text when it has one and its address otherwise; without the column, or
    with no row geocoded, the tokens are the addresses. *)
Theorem origin_tokens_fallback (n : nat) (latlng : option (list (option string)))
    (addresses : list string) :
  length addresses = n →
  (∀ col, latlng = Some col → length col = n) →
  ∃ tokens,
    origin_tokens n latlng addresses = Py.Ok tokens ∧
    length tokens = n ∧
    (∀ i a, addresses !! i = Some a →
       tokens !! i = Some (default a (latlng ≫= (fun col => col !! i ≫= id)))) ∧
    ((∀ col, latlng = Some col → Forall (fun v => v = None) col) →
     tokens = addresses).
Proof.
  intros Hlen Hcol. unfold origin_tokens.
  destruct latlng as [col|]; simpl.
  - specialize (Hcol col eq_refl).
    destruct (existsb _ col) eqn:Hany.
    + set (g := fun i : nat =>
                  default (default "" (addresses !! i)) (col !! i ≫= id)).
      rewrite (comprehension_fmap _ g).
      * eexists. split; [done|]. split_and!.
        -- by rewrite length_fmap, length_seq.
        -- intros i a Ha. pose proof (lookup_lt_Some _ _ _ Ha) as Hi.
           rewrite list_lookup_fmap, lookup_seq_lt by lia. simpl.
           unfold g. by rewrite Ha.
        -- intros Hnone. specialize (Hnone col eq_refl). exfalso.
           apply existsb_exists in Hany as (v & Hv & Hsome).
           rewrite Forall_forall in Hnone.
           apply list_elem_of_In, Hnone in Hv. subst.
           by rewrite bool_decide_eq_false_2 in Hsome by (by intros [? ?]).
      * intros i Hi%elem_of_seq. unfold iloc, Py.list_index, g.
        destruct (lookup_lt_is_Some_2 col i ltac:(lia)) as [v ->]. simpl.
        destruct v as [token|]; simpl; [done|].
        by destruct (lookup_lt_is_Some_2 addresses i ltac:(lia)) as [a ->].
    + exists addresses. split_and!; try done.
      intros i a Ha. by rewrite (existsb_is_Some_false col i Hany).
  - exists addresses. by split_and!.
Qed.

Lemma origin_tokens_fallback_witness :
  ∃ tokens,
    origin_tokens 2 (Some [None; Some "52.5,13.4"]) ["Hauptstr. 1, Berlin"; "Potsdam"]
    = Py.Ok tokens ∧
    tokens !! 0%nat = Some "Hauptstr. 1, Berlin" ∧
    tokens !! 1%nat = Some "52.5,13.4".
Proof.
  destruct (origin_tokens_fallback 2 (Some [None; Some "52.5,13.4"])
              ["Hauptstr. 1, Berlin"; "Potsdam"] eq_refl)
    as (tokens & Hrun & _ & Hrow & _).
  { intros col [= <-]. reflexivity. }
  exists tokens. split; [exact Hrun|].
  split; [exact (Hrow 0%nat _ eq_refl)|exact (Hrow 1%nat _ eq_refl)].
Defined.

Lemma assemble_matrices_square (res : result_map) (names origins : list string)
    (units : string) (M : matrices) :
  assemble_matrices res names origins units = Py.Ok M →
  square_matrices (length names) M.
Proof.
  unfold assemble_matrices.
  destruct (fill_matrices res names origins units) as [M1|e] eqn:Hfill; [|done].
  simpl. intros Hrun.
  eapply (overwrite_diagonal_keeps_square (length names)); [|exact Hrun].
  eapply fill_rows_keeps_square; [|exact Hfill]. apply new_matrices_square.
Qed.

(** X20: cutting names and tokens to the first [sample_n] rows keeps them
    the same length ([0] keeps all rows), so that the assembly of the
    sample returns square frames of that many rows whenever the recorded
    numbers can be converted. *)
Theorem take_sample_assembles (res : result_map) (names tokens : list string)
    (units : string) (sample_n : nat) :
  length tokens = length names →
  (∀ k r, res !! k = Some r → convertible_pair r = true) →
  take_sample 0 names = names ∧
  length (take_sample sample_n tokens) = length (take_sample sample_n names) ∧
  ∃ M,
    assemble_matrices res (take_sample sample_n names) (take_sample sample_n tokens)
      units = Py.Ok M ∧
    length (dist_km M)
    = (if (0 <? sample_n)%nat then sample_n `min` length names else length names).
Proof.
  intros Hlen Hres.
  assert (length (take_sample sample_n tokens) = length (take_sample sample_n names))
    as Hsame.
  { unfold take_sample. destruct (0 <? sample_n)%nat; [|done].
    by rewrite !length_take, Hlen. }
  split_and!; try done.
  destruct (assemble_matrices_total res _ _ units Hsame Hres) as [M HM].
  exists M. split; [done|].
  destruct (assemble_matrices_square res _ _ units M HM) as ((HlenD & _) & _).
  rewrite HlenD. unfold take_sample.
  destruct (0 <? sample_n)%nat; [|done]. by rewrite length_take.
Qed.

Lemma take_sample_assembles_witness :
  ∃ M,
    assemble_matrices Sample.two_results (take_sample 1 Sample.two_names)
      (take_sample 1 Sample.two_tokens) "metric" = Py.Ok M ∧
    length (dist_km M) = 1%nat.
Proof.
  destruct (take_sample_assembles Sample.two_results Sample.two_names
              Sample.two_tokens "metric" 1 eq_refl sample_results_convertible)
    as (_ & _ & M & HM & Hlen).
  exists M. split; [exact HM|exact Hlen].
Defined.

(** ** The cache file *)

(** X21: the rows of the cache export are exactly the resolved entries of
    the cache: an address with coordinates gives a row with them, an
    address with the "not found" mark gives none. *)
Theorem export_rows_resolved (cache : gmap string (option coord))
    (address : string) (lat lng : Py.pynum) :
  (address, lat, lng) ∈ export_rows cache
  ↔ cache !! address = Some (Some (lat, lng)).
Proof.
  unfold export_rows. rewrite list_elem_of_omap. split.
  - intros ([k v] & Hin & Hrow). apply elem_of_map_to_list in Hin.
    simpl in Hrow. destruct v as [[lat' lng']|]; [|done]. by simplify_eq.
  - intros Hc. exists (address, Some (lat, lng)). split; [|done].
    by apply elem_of_map_to_list.
Qed.

Lemma import_row_Ok (row : cache_row) (cache cache' : gmap string (option coord)) :
  import_row row cache = Py.Ok cache' →
  ∃ lat lng,
    Py.to_float row.1.2 = Py.Ok lat ∧ Py.to_float row.2 = Py.Ok lng ∧
    cache' = <[row.1.1 := Some (Py.PyFloat lat, Py.PyFloat lng)]> cache.
Proof.
  unfold import_row.
  destruct (Py.to_float row.1.2) as [lat|e]; [|done].
  destruct (Py.to_float row.2) as [lng|e]; [|done].
  intros [= <-]. by exists lat, lng.
Qed.

(** The import writes only to the addresses of its rows. *)
Lemma import_rows_frame (rows : list cache_row)
    (cache cache' : gmap string (option coord)) (err : option string) (a : string) :
  import_rows rows cache = (cache', err) →
  Forall (fun row => row.1.1 ≠ a) rows →
  cache' !! a = cache !! a.
Proof.
  revert cache. induction rows as [|row rest IH]; intros cache Hrun Hout.
  - by simplify_eq/=.
  - apply Forall_cons in Hout as [Hrow Hrest]. simpl in Hrun.
    destruct (import_row row cache) as [cache1|e] eqn:Hstep; [|by simplify_eq].
    apply import_row_Ok in Hstep as (lat & lng & _ & _ & ->).
    rewrite (IH _ Hrun Hrest). by apply lookup_insert_ne.
Qed.

(** The last row of an address decides. *)
Lemma import_rows_last (before after : list cache_row) (a : string)
    (lat lng : Py.pynum) (cache cache' : gmap string (option coord)) :
  import_rows (before ++ (a, lat, lng) :: after) cache = (cache', None) →
  Forall (fun row => row.1.1 ≠ a) after →
  ∃ flat flng,
    Py.to_float lat = Py.Ok flat ∧ Py.to_float lng = Py.Ok flng ∧
    cache' !! a = Some (Some (Py.PyFloat flat, Py.PyFloat flng)).
Proof.
  revert cache. induction before as [|row rest IH]; intros cache Hrun Hafter.
  - simpl in Hrun.
    destruct (import_row (a, lat, lng) cache) as [cache1|e] eqn:Hstep;
      [|by simplify_eq].
    apply import_row_Ok in Hstep as (flat & flng & Hlat & Hlng & ->).
    exists flat, flng. split_and!; try done.
    rewrite (import_rows_frame _ _ _ _ a Hrun Hafter). apply lookup_insert_eq.
  - simpl in Hrun.
    destruct (import_row row cache) as [cache1|e] eqn:Hstep; [|by simplify_eq].
    by eapply IH.
Qed.

(** X22: an import that runs to its end leaves, for every address, the
    coordinates of the last row of that address, as floats, whatever the
    cache held for it (coordinates or the "not found" mark); entries of
    addresses the file does not name stay as they are, also when a row
    stops the import. *)
Theorem import_rows_last_wins (rows : list cache_row)
    (cache cache' : gmap string (option coord)) (err : option string) :
  import_rows rows cache = (cache', err) →
  (∀ a, Forall (fun row => row.1.1 ≠ a) rows → cache' !! a = cache !! a) ∧
  (err = None →
   ∀ before a lat lng after,
     rows = before ++ (a, lat, lng) :: after →
     Forall (fun row => row.1.1 ≠ a) after →
     ∃ flat flng,
       Py.to_float lat = Py.Ok flat ∧ Py.to_float lng = Py.Ok flng ∧
       cache' !! a = Some (Some (Py.PyFloat flat, Py.PyFloat flng))).
Proof.
  intros Hrun. split.
  - intros a Hout. by eapply import_rows_frame.
  - intros -> before a lat lng after -> Hafter. by eapply import_rows_last.
Qed.

Lemma import_rows_last_wins_witness :
  ∃ cache',
    import_rows Sample.cache_file (<["Berlin" := None]> ∅) = (cache', None) ∧
    cache' !! "Berlin" = Some (Some (Py.PyFloat 52.52, Py.PyFloat 13.4)) ∧
    cache' !! "Hamburg" = None.
Proof.
  assert (∃ cache', import_rows Sample.cache_file (<["Berlin" := None]> ∅)
                    = (cache', None)) as [cache' Hrun].
  { eexists. vm_compute. reflexivity. }
  exists cache'. split; [exact Hrun|].
  destruct (import_rows_last_wins _ _ _ _ Hrun) as [Hframe Hlast].
  split.
  - destruct (Hlast eq_refl
                [("Berlin", Py.PyFloat 52.5, Py.PyInt 13);
                 ("Potsdam", Py.PyFloat 52.4, Py.PyFloat 13.1)]
                "Berlin" (Py.PyFloat 52.52) (Py.PyFloat 13.4) [] eq_refl
                ltac:(constructor))
      as (flat & flng & Hlat & Hlng & Hc).
    injection Hlat as <-. injection Hlng as <-. exact Hc.
  - rewrite Hframe; [reflexivity|]. repeat constructor; discriminate.
Defined.

(** X23: after an import that ran to its end, the geocoder answers a
    non-empty address of the file from the cache: it returns the
    coordinates of the last row of that address and leaves the session as
    it is, without any request to the service. *)
Theorem import_rows_then_geocode (GMAPS_AVAILABLE : bool)
    (geocode_api : nat -> event -> geo_response)
    (before after : list cache_row) (address key : string) (lat lng : Py.pynum)
    (st : session) (cache' : gmap string (option coord)) :
  address ≠ "" →
  import_rows (before ++ (address, lat, lng) :: after) (geocode_cache st)
  = (cache', None) →
  Forall (fun row => row.1.1 ≠ address) after →
  ∃ flat flng,
    Py.to_float lat = Py.Ok flat ∧ Py.to_float lng = Py.Ok flng ∧
    google_geocode GMAPS_AVAILABLE geocode_api address key
      (mkSession cache' (trace st))
    = (Some (Py.PyFloat flat, Py.PyFloat flng), mkSession cache' (trace st)).
Proof.
  intros Hne Hrun Hafter.
  destruct (import_rows_last before after address lat lng _ _ Hrun Hafter)
    as (flat & flng & Hlat & Hlng & Hc).
  exists flat, flng. split_and!; try done.
  by apply google_geocode_hit.
Qed.

Lemma import_rows_then_geocode_witness :
  ∃ cache',
    import_rows Sample.cache_file ∅ = (cache', None) ∧
    google_geocode true Sample.down_api "Potsdam" "k" (mkSession cache' [])
    = (Some (Py.PyFloat 52.4, Py.PyFloat 13.1), mkSession cache' []).
Proof.
  assert (∃ cache', import_rows Sample.cache_file ∅ = (cache', None)) as [cache' Hrun].
  { eexists. vm_compute. reflexivity. }
  exists cache'. split; [exact Hrun|].
  destruct (import_rows_then_geocode true Sample.down_api
              [("Berlin", Py.PyFloat 52.5, Py.PyInt 13)]
              [("Berlin", Py.PyFloat 52.52, Py.PyFloat 13.4)]
              "Potsdam" "k" (Py.PyFloat 52.4) (Py.PyFloat 13.1)
              (mkSession ∅ []) cache')
    as (flat & flng & Hlat & Hlng & Hgeo).
  - discriminate.
  - exact Hrun.
  - repeat constructor; discriminate.
  - injection Hlat as <-. injection Hlng as <-. exact Hgeo.
Defined.

(** ** From the geocoding loop to the tokens *)

Lemma latlng_column_lookup (py_str : Py.pynum -> string)
    (coords : list (option coord)) (i : nat) :
  latlng_column py_str coords !! i
  = (fun c => match c with
              | Some (lat, lng) => Some (to_latlng_string py_str lat lng)
              | None => None
              end) <$> coords !! i.
Proof. unfold latlng_column. by rewrite list_lookup_fmap. Qed.

(** X24: within one run of the script, the tokens built from the column
    that the geocoding loop fills are, row by row, the text "lat,lng" of the
    coordinates found for the row's address, and the address itself where
    none was found; there is one token per address and nothing raises. *)
Theorem geocoded_tokens (GMAPS_AVAILABLE : bool)
    (geocode_api : nat -> event -> geo_response) (py_str : Py.pynum -> string)
    (addresses : list string) (key : string) (st : session) :
  let coords := (geocode_all GMAPS_AVAILABLE geocode_api addresses key st).1 in
  ∃ tokens,
    origin_tokens (length addresses) (Some (latlng_column py_str coords)) addresses
    = Py.Ok tokens ∧
    length tokens = length addresses ∧
    ∀ i a c, addresses !! i = Some a → coords !! i = Some c →
      tokens !! i
      = Some (match c with
              | Some (lat, lng) => py_str lat +:+ "," +:+ py_str lng
              | None => a
              end).
Proof.
  intros coords.
  assert (length coords = length addresses) as Hlen.
  { pose proof (geocode_all_answered GMAPS_AVAILABLE geocode_api addresses key st) as H.
    symmetry. by eapply Forall2_length. }
  set (g := fun i : nat =>
              match coords !! i with
              | Some (Some (lat, lng)) => py_str lat +:+ "," +:+ py_str lng
              | _ => default "" (addresses !! i)
              end).
  assert (∀ i a c, addresses !! i = Some a → coords !! i = Some c →
            g i = match c with
                  | Some (lat, lng) => py_str lat +:+ "," +:+ py_str lng
                  | None => a
                  end) as Hg.
  { intros i a c Ha Hc. unfold g. rewrite Ha, Hc. by destruct c as [[lat lng]|]. }
  unfold origin_tokens.
  destruct (existsb _ (latlng_column py_str coords)) eqn:Hany.
  - rewrite (comprehension_fmap _ g).
    + eexists. split; [done|]. split; [by rewrite length_fmap, length_seq|].
      intros i a c Ha Hc. pose proof (lookup_lt_Some _ _ _ Ha) as Hi.
      rewrite list_lookup_fmap, lookup_seq_lt by lia. simpl. f_equal. by apply Hg.
    + intros i Hi%elem_of_seq. unfold iloc, Py.list_index.
      rewrite latlng_column_lookup.
      destruct (lookup_lt_is_Some_2 coords i ltac:(lia)) as [c Hc].
      destruct (lookup_lt_is_Some_2 addresses i ltac:(lia)) as [a Ha].
      rewrite Hc. simpl. rewrite (Hg i a c Ha Hc).
      destruct c as [[lat lng]|]; simpl; [done|]. by rewrite Ha.
  - exists addresses. split; [done|]. split; [done|].
    intros i a c Ha Hc. rewrite Ha. f_equal.
    pose proof (existsb_is_Some_false _ i Hany) as Hnone.
    rewrite latlng_column_lookup, Hc in Hnone. simpl in Hnone.
    by destruct c as [[lat lng]|].
Qed.
